(** * law.sandbox.base: task sandboxing

    A shallow embedding of [law/sandbox/base.py] and machine-checked
    statements about sandbox keys, the environment cache, the staging
    protocol, the proxy run and the per-task sandbox resolution. *)

From stdpp Require Import base strings list gmap.
From Equations Require Import Equations.
From Stdlib Require Import Ascii ZArith Lia DecimalString DecimalZ.

Local Open Scope string_scope.
Set Warnings "-register-all".

(** ** Exceptions and results *)

(** The exception classes raised in [base.py] ([ValueError], [TypeError],
    plain [Exception]) and those the interpreter raises on the paths the
    model keeps ([IndexError] of [list.pop] and of indexing, [KeyError],
    [AttributeError]). *)
Inductive exn : Type :=
| Exception (msg : string)
| ValueError (msg : string)
| TypeError (msg : string)
| IndexError (msg : string)
| AttributeError (msg : string)
| KeyError (msg : string).

Inductive result (A : Type) : Type :=
| Ok (a : A)
| Raise (e : exn).
Arguments Ok {A} a.
Arguments Raise {A} e.

Definition is_ok {A} (r : result A) : bool :=
  match r with Ok _ => true | Raise _ => false end.

(** ** Python string primitives

    Text is a [string] of code points below 256. *)
Module Str.

(** [s[n:]] *)
Fixpoint drop (n : nat) (s : string) : string :=
  match n, s with
  | O, _ => s
  | S n', String _ s' => drop n' s'
  | S _, EmptyString => EmptyString
  end.

(** [sub in s] *)
Fixpoint contains (sub s : string) : bool :=
  String.prefix sub s ||
  match s with
  | EmptyString => false
  | String _ s' => contains sub s'
  end.

(** [s.endswith(suffix)] *)
Fixpoint endswith (suffix s : string) : bool :=
  String.eqb suffix s ||
  match s with
  | EmptyString => false
  | String _ s' => endswith suffix s'
  end.

(** The scan of [s.split(sep, 1)]: the text before the first occurrence
    of [sep] and, when there is one, the text after it. *)
Fixpoint partition (sep s : string) : string * option string :=
  if String.prefix sep s then (EmptyString, Some (drop (String.length sep) s))
  else match s with
       | EmptyString => (EmptyString, None)
       | String c s' =>
           let '(h, t) := partition sep s' in (String c h, t)
       end.

(** [s.split(sep, 1)] for a non-empty [sep]: one or two parts. *)
Definition split1 (sep s : string) : list string :=
  let '(h, t) := partition sep s in
  h :: match t with Some t' => [t'] | None => [] end.

(** [s.split(sep)] for a one-character [sep]. *)
Fixpoint split_char (sep : Ascii.ascii) (s : string) : list string :=
  match s with
  | EmptyString => [EmptyString]
  | String c s' =>
      if Ascii.eqb c sep then EmptyString :: split_char sep s'
      else match split_char sep s' with
           | p :: ps => String c p :: ps
           | [] => [String c EmptyString]
           end
  end.

(** [c.isspace()] on the code points below 256. *)
Definition isspace (c : Ascii.ascii) : bool :=
  let n := Ascii.nat_of_ascii c in
  (((9 <=? n) && (n <=? 13)) || ((28 <=? n) && (n <=? 32))
   || (n =? 133) || (n =? 160))%nat.

(** [s.lstrip()], [s.rstrip()], [s.strip()] *)
Fixpoint lstrip (s : string) : string :=
  match s with
  | EmptyString => EmptyString
  | String c s' => if isspace c then lstrip s' else s
  end.

Fixpoint rstrip (s : string) : string :=
  match s with
  | EmptyString => EmptyString
  | String c s' =>
      match rstrip s' with
      | EmptyString => if isspace c then EmptyString else String c EmptyString
      | r => String c r
      end
  end.

Definition strip (s : string) : string := rstrip (lstrip s).

(** truth value of a string: [bool(s)] *)
Definition truthy (s : string) : bool :=
  match s with EmptyString => false | _ => true end.

(** [s.replace(old, new)] for a one-character [old]. *)
Fixpoint replace_char (old : Ascii.ascii) (new s : string) : string :=
  match s with
  | EmptyString => EmptyString
  | String c s' =>
      if Ascii.eqb c old then new +:+ replace_char old new s'
      else String c (replace_char old new s')
  end.

(** [str(n)] / ["{}".format(n)] for an integer. *)
Definition of_Z (n : Z) : string := NilEmpty.string_of_int (Z.to_int n).

End Str.

(** ** Sandbox keys ([Sandbox.check_key], [split_key], [remove_type],
       [join_key]) *)

Definition delimiter : string := "::".

Definition check_key (key : string) (silent : bool) : result bool :=
  if Str.contains "," key then
    if silent then Ok false
    else Raise (ValueError ("invalid sandbox key format '" +:+ key +:+ "'"))
  else Ok true.

Definition split_key (key : string) : result (string * string) :=
  match Str.split1 delimiter key with
  | [t; n] =>
      if existsb (fun p => negb (Str.truthy (Str.strip p))) [t; n]
      then Raise (ValueError ("invalid sandbox key '" +:+ key +:+ "'"))
      else Ok (t, n)
  | _ => Raise (ValueError ("invalid sandbox key '" +:+ key +:+ "'"))
  end.

Definition join_key (_type name : string) : string :=
  (_type +:+ delimiter) +:+ name.

Definition remove_type (key : string) : result string :=
  match check_key key false with
  | Raise e => Raise e
  | Ok _ =>
      match Str.partition delimiter key with
      | (_, Some n) => Ok n
      | (h, None) => Ok h
      end
  end.


(** ** Targets and target structures *)

(** A leaf target, reduced to the attributes the engine reads. *)
Record Target : Type := mkTarget {
  path : string;
  unique_basename : string;
  ttype : string;
}.

(** Modelled from the spec: the "target structure" of section 3, a leaf
    target or a named mapping, an ordered sequence or a flat collection
    ([TargetCollection], which wraps a structure of targets) of such
    values. The Python values are dicts, lists and [law.target] objects
    whose classes are not part of [base.py]. *)
Inductive Struct : Type :=
| Leaf (t : Target)
| Mapping (items : list (string * Struct))
| Sequence (items : list Struct)
| Collection (targets : Struct).

(** An entry of a flattened list: a leaf target, or a flat collection
    (a [TargetCollection] is one object to [flatten]). *)
Inductive Item : Type :=
| ITarget (t : Target)
| ICollection (targets : Struct).

(** Modelled from the spec: [law.util.flatten], the flattened leaf list
    of a structure. Mappings and sequences are traversed in order; a flat
    collection is one entry of the result (it "exposes its own flattened
    leaf list", [_flat_target_list] below). *)
Fixpoint flatten (s : Struct) : list Item :=
  match s with
  | Leaf t => [ITarget t]
  | Collection c => [ICollection c]
  | Mapping items =>
      (fix values (l : list (string * Struct)) : list Item :=
         match l with
         | [] => []
         | (_, v) :: l' => (flatten v ++ values l')%list
         end) items
  | Sequence items =>
      (fix elems (l : list Struct) : list Item :=
         match l with
         | [] => []
         | v :: l' => (flatten v ++ elems l')%list
         end) items
  end.

(** Modelled from the spec: [TargetCollection._flat_target_list], the
    flattened leaf list of the wrapped structure. *)
Definition _flat_target_list (targets : Struct) : list Item := flatten targets.

(** Modelled from the spec: [law.util.map_struct] with the custom mapping
    that [create_staged_target_struct] installs for [TargetCollection]
    ([map_collection]: map the wrapped structure and rebuild the
    collection). The nesting shape is preserved. *)
Fixpoint map_struct (func : Target -> Target) (s : Struct) : Struct :=
  match s with
  | Leaf t => Leaf (func t)
  | Mapping items =>
      Mapping ((fix values (l : list (string * Struct)) :=
                  match l with
                  | [] => []
                  | (k, v) :: l' => (k, map_struct func v) :: values l'
                  end) items)
  | Sequence items =>
      Sequence ((fix elems (l : list Struct) :=
                   match l with
                   | [] => []
                   | v :: l' => map_struct func v :: elems l'
                   end) items)
  | Collection c => Collection (map_struct func c)
  end.

(** Modelled from the spec: the truth value of a structure
    ([if not sandbox_inputs]). Empty dicts and lists are false, and so is
    a flat collection that wraps none ([TargetCollection.__len__], not
    part of [base.py]); every other value is true. *)
Definition struct_truthy (s : Struct) : bool :=
  match s with
  | Leaf _ => true
  | Mapping items => negb (bool_decide (items = []))
  | Sequence items => negb (bool_decide (items = []))
  | Collection (Mapping items) => negb (bool_decide (items = []))
  | Collection (Sequence items) => negb (bool_decide (items = []))
  | Collection _ => true
  end.

(** All leaf targets of a structure, flat collections expanded. *)
Fixpoint leaves (s : Struct) : list Target :=
  match s with
  | Leaf t => [t]
  | Collection c => leaves c
  | Mapping items =>
      (fix values (l : list (string * Struct)) : list Target :=
         match l with
         | [] => []
         | (_, v) :: l' => (leaves v ++ values l')%list
         end) items
  | Sequence items =>
      (fix elems (l : list Struct) : list Target :=
         match l with
         | [] => []
         | v :: l' => (leaves v ++ elems l')%list
         end) items
  end.

Record StageInfo : Type := mkStageInfo {
  targets : Struct;
  stage_dir : string;
  staged_targets : Struct;
}.

(** An environment map (an ordered mapping from names to values). *)
Definition Env : Type := list (string * string).

(** [ProxyCommand(task, exclude_task_args, exclude_global_args,
    executable)], kept as the record of its arguments. *)
Record ProxyCommand : Type := mkProxyCommand {
  pc_task_id : string;
  pc_exclude_task_args : list string;
  pc_exclude_global_args : list string;
  pc_executable : list string;
}.

(** ** External collaborators

    The storage layer behind targets, the configuration service, the
    subprocess launcher and the helpers of [law.util] that [base.py]
    calls. Effects on the outside (file systems, container runtimes) go
    through an abstract [World]. *)
Class Collaborators : Type := {
  World : Type;
  Mask : Type;
  (** [target.exists()] *)
  target_exists : Target -> World -> bool;
  (** [src.copy_to_local(dst)] *)
  copy_to_local : Target -> Target -> World -> result unit * World;
  (** [dst.copy_from_local(src)] *)
  copy_from_local : Target -> Target -> World -> result unit * World;
  (** [unique_basename] of a local target at the given path *)
  local_unique_basename : string -> string;
  (** [LocalDirectoryTarget(value)]: the path of the directory target, or
      what the constructor raises *)
  local_directory_target : string -> result string;
  (** [LocalDirectoryTarget(is_tmp=True)] followed by [touch()] *)
  new_tmp_dir : World -> result string * World;
  (** [dir.touch()] *)
  touch : string -> World -> result unit * World;
  (** [os.environ] *)
  os_environ : Env;
  (** [interruptable_popen(cmd, shell=True, ..., env=env)], its exit code *)
  interruptable_popen : string -> Env -> World -> result Z * World;
  (** [Config.instance().has_section(section)] *)
  cfg_has_section : string -> bool;
  (** [Config.instance().get_expanded(section, option)] *)
  cfg_get_expanded : string -> string -> option string;
  (** [shlex.split] *)
  shlex_split : string -> list string;
  (** [multi_match(name, patterns, mode=any)] *)
  multi_match : string -> list string -> bool;
  (** [mask_struct(mask, struct)]; [None] is Python's [None] *)
  mask_struct : Mask -> Struct -> option Struct;
}.

(** Modelled from the spec: [law.parameter.NO_STR], the value that
    denotes an empty string parameter (the empty designation). *)
Definition NO_STR : string := "NO_STR".

(** Modelled from the spec: [LocalDirectoryTarget.child(basename, type)],
    the local target "located at stage_dir / basename". *)
Definition child `{Collaborators} (dir basename type : string) : Target :=
  let p := dir +:+ "/" +:+ basename in
  {| path := p; unique_basename := local_unique_basename p; ttype := type |}.

(** Line 697 of [create_staged_target], for a [stage_dir] that is a
    [LocalDirectoryTarget], given by its path: this is how [stagein] and
    [prepare_stageout] call it, with the child of the temporary directory.
    [create_staged_target_from] below is the function for any argument. *)
Definition create_staged_target `{Collaborators} (stage_dir : string) (target : Target) : Target :=
  child stage_dir (unique_basename target) (ttype target).

Definition create_staged_target_struct `{Collaborators} (stage_dir : string) (struct : Struct) : Struct :=
  map_struct (create_staged_target stage_dir) struct.






(** ** Sandboxes *)

(** A sandbox instance: the attributes set by [Sandbox.__init__] and the
    abstract members a backend implements. [cmd] may read the staging
    information recorded on the instance. *)
Record Sandbox `{Collaborators} : Type := mkSandbox {
  sandbox_type : string;
  name : string;
  env_cache_key : string;
  create_env : World -> result Env * World;
  cmd : option StageInfo -> option StageInfo -> ProxyCommand -> result string;
  stagein_info : option StageInfo;
  stageout_info : option StageInfo;
}.

(** A backend class: the [sandbox_type] seen by [getattr], its direct
    subclasses, what creating an object of the class raises by itself
    (the [TypeError] of [ABCMeta] for a class that leaves abstract members
    open, or an exception of the constructor of the backend; [None] for a
    concrete backend), and the members its instances get. *)
Inductive SandboxClass `{Collaborators} : Type :=
  mkClass (cls_sandbox_type : option string)
          (cls_subclasses : list SandboxClass)
          (cls_raises : option exn)
          (cls_env_cache_key : string -> string)
          (cls_create_env : string -> World -> result Env * World)
          (cls_cmd : string -> option StageInfo -> option StageInfo -> ProxyCommand -> result string).

Definition cls_sandbox_type `{Collaborators} (c : SandboxClass) : option string :=
  match c with mkClass t _ _ _ _ _ => t end.

Definition cls_subclasses `{Collaborators} (c : SandboxClass) : list SandboxClass :=
  match c with mkClass _ subs _ _ _ _ => subs end.

Definition cls_raises `{Collaborators} (c : SandboxClass) : option exn :=
  match c with mkClass _ _ raises _ _ _ => raises end.

(** The [task] argument of [Sandbox.__init__]: none, a [SandboxTask], or
    another object, given by its [str()]. *)
Inductive TaskArg : Type :=
| NoTask
| SandboxTaskArg
| OtherTaskArg (text : string).

(** The object that [Sandbox.__init__] leaves behind (lines 155-165) for a
    class whose [sandbox_type] is [_type]. *)
Definition Sandbox_object `{Collaborators} (c : SandboxClass) (_type name : string) : Sandbox :=
  match c with
  | mkClass _ _ _ key mk_env mk_cmd =>
      {| sandbox_type := _type; name := name;
         env_cache_key := key name; create_env := mk_env name; cmd := mk_cmd name;
         stagein_info := None; stageout_info := None |}
  end.

(** [Sandbox.__init__(name, task)] *)
Definition Sandbox_init `{Collaborators} (c : SandboxClass) (_type name : string)
    (task : TaskArg) : result Sandbox :=
  match task with
  | OtherTaskArg text =>
      Raise (TypeError ("sandbox task must be a SandboxTask instance, got " +:+ text))
  | _ => Ok (Sandbox_object c _type name)
  end.

(** [_cls(name, task)] for a class whose [sandbox_type] is [_type]. *)
Definition instantiate `{Collaborators} (c : SandboxClass) (_type name : string)
    (task : TaskArg) : result Sandbox :=
  match cls_raises c with
  | Some e => Raise e
  | None => Sandbox_init c _type name task
  end.

Fixpoint class_size `{Collaborators} (c : SandboxClass) : nat :=
  match c with
  | mkClass _ subs _ _ _ _ =>
      S ((fix sizes (l : list SandboxClass) : nat :=
            match l with
            | [] => 0
            | c' :: l' => class_size c' + sizes l'
            end) subs)
  end.

Definition classes_size `{Collaborators} (l : list SandboxClass) : nat :=
  list_sum (map class_size l).

(** ** Ambient state read at import time (lines 37-63) *)

Record Ambient : Type := mkAmbient {
  _current_sandbox : list string;
  _sandbox_switched : bool;
  _sandbox_task_id : string;
  _sandbox_worker_id : string;
  _sandbox_worker_first_task_id : string;
  _sandbox_is_root_task : bool;
  _sandbox_stagein_dir : string;
  _sandbox_stageout_dir : string;
}.

(** [os.getenv(name, "")] over the environment of the process. *)
Fixpoint getenv (environ : Env) (name : string) : string :=
  match environ with
  | [] => ""
  | (k, v) :: rest => if String.eqb k name then v else getenv rest name
  end.

(** The module body: read the variables, then check that the values a
    sandbox needs are present. *)
Definition load_ambient (environ : Env) : result Ambient :=
  let amb :=
    {| _current_sandbox := Str.split_char ","%char (getenv environ "LAW_SANDBOX");
       _sandbox_switched := String.eqb (getenv environ "LAW_SANDBOX_SWITCHED") "1";
       _sandbox_task_id := getenv environ "LAW_SANDBOX_TASK_ID";
       _sandbox_worker_id := getenv environ "LAW_SANDBOX_WORKER_ID";
       _sandbox_worker_first_task_id := getenv environ "LAW_SANDBOX_WORKER_FIRST_TASK_ID";
       _sandbox_is_root_task := String.eqb (getenv environ "LAW_SANDBOX_IS_ROOT_TASK") "1";
       _sandbox_stagein_dir := getenv environ "LAW_SANDBOX_STAGEIN_DIR";
       _sandbox_stageout_dir := getenv environ "LAW_SANDBOX_STAGEOUT_DIR" |} in
  if _sandbox_switched amb then
    match _current_sandbox amb with
    | [] => Raise (Exception "LAW_SANDBOX must not be empty in a sandbox")
    | first :: _ =>
        if negb (Str.truthy first)
        then Raise (Exception "LAW_SANDBOX must not be empty in a sandbox")
        else if negb (Str.truthy (_sandbox_task_id amb))
        then Raise (Exception "LAW_SANDBOX_TASK_ID must not be empty in a sandbox")
        else if negb (Str.truthy (_sandbox_worker_id amb))
        then Raise (Exception "LAW_SANDBOX_WORKER_ID must not be empty in a sandbox")
        else if negb (Str.truthy (_sandbox_worker_first_task_id amb))
        then Raise (Exception "LAW_SANDBOX_WORKER_FIRST_TASK_ID must not be empty in a sandbox")
        else Ok amb
    end
  else Ok amb.

(** ** Tasks *)

(** The [sandbox] attribute of a task class: the value of the
    [luigi.Parameter], or a hard-coded class attribute that replaces it. *)
Inductive SandboxAttr : Type :=
| ParamValue (value : string)
| HardCoded (value : option string).

(** The task-side members the engine consults. Hooks are [None] when the
    attribute is not callable. *)
Record Task `{Collaborators} : Type := mkTask {
  task_id : string;
  (** [repr(self)], the text that ["{!r}".format(self)] puts into a
      message *)
  task_repr : string;
  sandbox : SandboxAttr;
  allow_empty_sandbox : bool;
  valid_sandboxes : list string;
  exclude_params_sandbox : list string;
  fallback_sandbox : string -> option string;
  sandbox_stagein : option Mask;
  sandbox_stageout : option Mask;
  input : Env -> Struct;
  output : Env -> Struct;
  sandbox_before_run : option (World -> result unit * World);
  sandbox_after_run : option (World -> result unit * World);
}.

Inductive SandboxProxy : Type := mkSandboxProxy.

(** ** Observable events

    Calls to collaborators, prints and warnings, in program order; the
    resolver and the subprocess are recorded with their outcome. Debug and
    info log lines are not recorded. *)
Inductive event : Type :=
| EvBeforeRun
| EvAfterRun
| EvCreateEnv (cache_key : string * string) (resolved : bool)
| EvCopyToLocal (src dst : Target)
| EvCopyFromLocal (dst src : Target)
| EvWarning (msg : string)
| EvBanner (msg task key : string)
| EvPopen (cmd : string) (outcome : result Z).

(** ** Program state *)

Record State `{Collaborators} : Type := mkState {
  _envs : gmap (string * string) Env;
  world : World;
  trace : list event;
  _sandbox_initialized : bool;
  _effective_sandbox : option string;
  _sandbox_inst : option Sandbox;
  _sandbox_proxy : option SandboxProxy;
}.

Definition M `{Collaborators} (A : Type) : Type := State -> result A * State.

Definition ret `{Collaborators} {A} (a : A) : M A := fun st => (Ok a, st).

Definition raise `{Collaborators} {A} (e : exn) : M A := fun st => (Raise e, st).

Definition bind `{Collaborators} {A B} (m : M A) (k : A -> M B) : M B :=
  fun st =>
    match m st with
    | (Ok a, st') => k a st'
    | (Raise e, st') => (Raise e, st')
    end.

Notation "'let*' x ':=' m 'in' k" := (bind m (fun x => k))
  (at level 10, x name, m at level 100, k at level 200).
Notation "m '>>' k" := (bind m (fun _ => k))
  (at level 100, k at level 200, right associativity).

(** [try: body finally: handler] *)
Definition try_finally `{Collaborators} {A} (body : M A) (handler : M unit) : M A :=
  fun st =>
    match body st with
    | (r, st') =>
        match handler st' with
        | (Ok _, st'') => (r, st'')
        | (Raise e, st'') => (Raise e, st'')
        end
    end.

Definition lift `{Collaborators} {A} (r : result A) : M A := fun st => (r, st).

(** The state with one more event on record. *)
Definition log `{Collaborators} (e : event) (st : State) : State :=
  {| _envs := _envs st; world := world st; trace := trace st ++ [e];
     _sandbox_initialized := _sandbox_initialized st;
     _effective_sandbox := _effective_sandbox st;
     _sandbox_inst := _sandbox_inst st;
     _sandbox_proxy := _sandbox_proxy st |}.

Definition emit `{Collaborators} (e : event) : M unit := fun st => (Ok tt, log e st).

Definition set_world `{Collaborators} (w : World) (st : State) : State :=
  {| _envs := _envs st; world := w; trace := trace st;
     _sandbox_initialized := _sandbox_initialized st;
     _effective_sandbox := _effective_sandbox st;
     _sandbox_inst := _sandbox_inst st;
     _sandbox_proxy := _sandbox_proxy st |}.

(** A call into the outside world. *)
Definition call `{Collaborators} {A} (f : World -> result A * World) : M A :=
  fun st => match f (world st) with (r, w) => (r, set_world w st) end.

(** A call into the outside world whose outcome is recorded. *)
Definition call_traced `{Collaborators} {A} (f : World -> result A * World)
    (ev : result A -> event) : M A :=
  fun st => match f (world st) with (r, w) => (r, log (ev r) (set_world w st)) end.

Definition set_envs `{Collaborators} (m : gmap (string * string) Env) (st : State) : State :=
  {| _envs := m; world := world st; trace := trace st;
     _sandbox_initialized := _sandbox_initialized st;
     _effective_sandbox := _effective_sandbox st;
     _sandbox_inst := _sandbox_inst st;
     _sandbox_proxy := _sandbox_proxy st |}.

Definition set_task_fields `{Collaborators} (i : bool) (e : option string)
    (s : option Sandbox) (p : option SandboxProxy) (st : State) : State :=
  {| _envs := _envs st; world := world st; trace := trace st;
     _sandbox_initialized := i; _effective_sandbox := e;
     _sandbox_inst := s; _sandbox_proxy := p |}.

Definition gets `{Collaborators} {A} (f : State -> A) : M A := fun st => (Ok (f st), st).

Definition modify `{Collaborators} (f : State -> State) : M unit := fun st => (Ok tt, f st).

(** ** Sizes that bound the two queue loops *)

Fixpoint struct_size (s : Struct) : nat :=
  match s with
  | Leaf _ => 1
  | Collection c => S (struct_size c)
  | Mapping items =>
      S ((fix values (l : list (string * Struct)) : nat :=
            match l with
            | [] => 0
            | (_, v) :: l' => struct_size v + values l'
            end) items)
  | Sequence items =>
      S ((fix elems (l : list Struct) : nat :=
            match l with
            | [] => 0
            | v :: l' => struct_size v + elems l'
            end) items)
  end.

Definition item_size (i : Item) : nat :=
  match i with
  | ITarget _ => 1
  | ICollection c => S (struct_size c)
  end.

Definition queue_size (q : list Item) : nat := list_sum (map item_size q).

Lemma queue_size_app (q1 q2 : list Item) :
  queue_size (q1 ++ q2) = queue_size q1 + queue_size q2.
Proof.
  unfold queue_size. rewrite map_app, list_sum_app. reflexivity.
Qed.

Lemma queue_size_flatten (s : Struct) : queue_size (flatten s) <= struct_size s.
Proof.
  revert s. fix IH 1. intros [t | items | items | c]; simpl.
  - unfold queue_size. simpl. lia.
  - apply Nat.le_le_succ_r.
    induction items as [| [k v] items IHitems]; simpl; [unfold queue_size; simpl; lia |].
    rewrite queue_size_app. specialize (IH v). lia.
  - apply Nat.le_le_succ_r.
    induction items as [| v items IHitems]; simpl; [unfold queue_size; simpl; lia |].
    rewrite queue_size_app. specialize (IH v). lia.
  - unfold queue_size. simpl. lia.
Qed.

Lemma classes_size_app `{Collaborators} (l1 l2 : list SandboxClass) :
  classes_size (l1 ++ l2) = classes_size l1 + classes_size l2.
Proof.
  unfold classes_size. rewrite map_app, list_sum_app. reflexivity.
Qed.

Lemma class_size_subclasses `{Collaborators} (c : SandboxClass) :
  class_size c = S (classes_size (cls_subclasses c)).
Proof.
  destruct c as [t subs k e m]. simpl. f_equal.
  induction subs as [| c' subs IH]; simpl; [reflexivity |].
  unfold classes_size in *. simpl. rewrite IH. reflexivity.
Qed.

(** ** The engine *)

Section Engine.
Context `{Collaborators}.

(** *** class Sandbox *)

(** [Sandbox.key] *)
Definition key (s : Sandbox) : string := join_key (sandbox_type s) (name s).

(** [Sandbox.is_active] *)
Definition is_active (amb : Ambient) (s : Sandbox) : bool :=
  bool_decide (key s ∈ _current_sandbox amb).

(** The loop of [Sandbox.new]: breadth-first walk through the subclasses,
    first class whose [sandbox_type] equals [_type]. *)
Equations? find_class (_type : string) (classes : list SandboxClass) : option SandboxClass
  by wf (classes_size classes) lt :=
find_class _type [] := None;
find_class _type (_cls :: classes) :=
  if bool_decide (cls_sandbox_type _cls = Some _type) then Some _cls
  else find_class _type (classes ++ cls_subclasses _cls).
Proof.
  rewrite classes_size_app. unfold classes_size at 3. simpl.
  rewrite class_size_subclasses. fold (classes_size classes). lia.
Qed.

(** [Sandbox.new(key, task)]; [registry] is [Sandbox.__subclasses__()]. *)
Definition Sandbox_new_for (registry : list SandboxClass) (key : string)
    (task : TaskArg) : result Sandbox :=
  match check_key key false with
  | Raise e => Raise e
  | Ok _ =>
      match split_key key with
      | Raise e => Raise e
      | Ok (_type, name) =>
          match find_class _type registry with
          | Some _cls => instantiate _cls _type name task
          | None => Raise (Exception ("no sandbox with type '" +:+ _type +:+ "' found"))
          end
      end
  end.

(** [Sandbox.new(key, self)], the call of line 555: the task is a
    [SandboxTask]. *)
Definition Sandbox_new (registry : list SandboxClass) (key : string) : result Sandbox :=
  Sandbox_new_for registry key SandboxTaskArg.

(** [Sandbox.env]: the resolved environment, cached in [Sandbox._envs]. *)
Definition Sandbox_env (s : Sandbox) : M Env :=
  let cache_key := (sandbox_type s, env_cache_key s) in
  let* cache := gets _envs in
  let* _ :=
    match cache !! cache_key with
    | Some _ => ret tt
    | None =>
        let* e := call_traced (create_env s)
                    (fun r => EvCreateEnv cache_key (is_ok r)) in
        modify (fun st => set_envs (<[cache_key := e]> (_envs st)) st)
    end in
  let* cache := gets _envs in
  match cache !! cache_key with
  | Some e => ret e
  | None => raise (KeyError "cache_key")
  end.

(** [Sandbox.run(cmd)]: the exit code of the subprocess. *)
Definition Sandbox_run (s : Sandbox) (cmd : string) : M Z :=
  let* e := Sandbox_env s in
  call_traced (interruptable_popen cmd e) (EvPopen cmd).

(** [Sandbox.get_config_section(postfix)] *)
Definition get_config_section (s : Sandbox) (postfix : option string) : string :=
  let section := sandbox_type s +:+ "_sandbox" in
  let section :=
    match postfix with
    | Some p => if Str.truthy p then section +:+ "_" +:+ p else section
    | None => section
    end in
  let custom_section := section +:+ "_" +:+ name s in
  if cfg_has_section custom_section then custom_section else section.

(** *** class SandboxTask *)

Variable amb : Ambient.
Variable registry : list SandboxClass.
Variable task : Task.

Definition set_effective_sandbox (e : option string) : M unit :=
  modify (fun st => set_task_fields (_sandbox_initialized st) e
                      (_sandbox_inst st) (_sandbox_proxy st) st).

(** [x in (None, NO_STR)] *)
Definition is_empty_sandbox (e : option string) : bool :=
  match e with
  | None => true
  | Some v => String.eqb v NO_STR
  end.

Definition _initialize_sandbox (force : bool) : M unit :=
  let* initialized := gets _sandbox_initialized in
  if initialized && negb force then ret tt
  else
    modify (set_task_fields true None None None) >>
    (if _sandbox_switched amb then
       match _current_sandbox amb with
       | first :: _ => set_effective_sandbox (Some first)
       | [] => raise (IndexError "list index out of range")
       end
     else
       match sandbox task with
       | ParamValue value =>
           if multi_match value (valid_sandboxes task)
           then set_effective_sandbox (Some value)
           else set_effective_sandbox (fallback_sandbox task value)
       | HardCoded value => set_effective_sandbox value
       end) >>
    let* effective := gets _effective_sandbox in
    (if is_empty_sandbox effective then
       if negb (allow_empty_sandbox task)
       then raise (Exception ("task " +:+ task_repr task
                              +:+ " requires the sandbox parameter to be set"))
       else set_effective_sandbox (Some NO_STR)
     else ret tt) >>
    let* effective := gets _effective_sandbox in
    match effective with
    | None => ret tt
    | Some e =>
        if String.eqb e NO_STR then ret tt
        else
          let* sandbox_inst := lift (Sandbox_new registry e) in
          if negb (is_active amb sandbox_inst) then
            modify (fun st => set_task_fields (_sandbox_initialized st)
                                (_effective_sandbox st) (Some sandbox_inst)
                                (Some mkSandboxProxy) st)
          else ret tt
    end.

(** The properties [effective_sandbox], [sandbox_inst], [sandbox_proxy]. *)
Definition effective_sandbox : M (option string) :=
  _initialize_sandbox false >> gets _effective_sandbox.

Definition sandbox_inst : M (option Sandbox) :=
  _initialize_sandbox false >> gets _sandbox_inst.

Definition sandbox_proxy : M (option SandboxProxy) :=
  _initialize_sandbox false >> gets _sandbox_proxy.

(** [SandboxTask.is_sandboxed] *)
Definition is_sandboxed : M bool :=
  let* effective := effective_sandbox in
  if bool_decide (effective = Some NO_STR) then ret true
  else
    let* inst := sandbox_inst in
    ret (negb (bool_decide (is_Some inst))).

(** Attribute access on a value that may be [None]. *)
Definition deref {A} (attr : string) (o : option A) : M A :=
  match o with
  | Some a => ret a
  | None => raise (AttributeError ("'NoneType' object has no attribute '" +:+ attr +:+ "'"))
  end.

(** [SandboxTask.env] *)
Definition SandboxTask_env : M Env :=
  let* direct := is_sandboxed in
  if direct then ret os_environ
  else
    let* inst := sandbox_inst in
    let* s := deref "env" inst in
    Sandbox_env s.

(** [SandboxTask.sandbox_law_executable] *)
Definition sandbox_law_executable : M (list string) :=
  let* inst := sandbox_inst in
  let executable :=
    match inst with
    | Some s => cfg_get_expanded (get_config_section s None) "law_executable"
    | None => Some "law"
    end in
  ret (match executable with
       | Some e => if Str.truthy e then shlex_split e else []
       | None => []
       end).

(** *** class SandboxProxy *)

(** [ProxyTask] forwards [self.sandbox_inst] to the task. *)
Definition create_proxy_cmd : M ProxyCommand :=
  let* executable := sandbox_law_executable in
  ret {| pc_task_id := task_id task;
         pc_exclude_task_args := exclude_params_sandbox task;
         pc_exclude_global_args := ["workers"];
         pc_executable := executable |}.

(** The copy loop of [stagein] (lines 401-413): both flattened lists are
    consumed in lockstep, a collection is replaced by its members at the
    front of the queue. *)
Equations? stagein_loop (flat_sandbox_inputs flat_staged_inputs : list Item) : M unit
  by wf (queue_size flat_sandbox_inputs) lt :=
stagein_loop [] _ := ret tt;
stagein_loop (_ :: _) [] := raise (IndexError "pop from empty list");
stagein_loop (ICollection c :: rest) (ICollection c' :: rest') :=
  stagein_loop (_flat_target_list c ++ rest) (_flat_target_list c' ++ rest');
stagein_loop (ICollection _ :: _) (ITarget _ :: _) :=
  raise (AttributeError "_flat_target_list");
stagein_loop (ITarget _ :: _) (ICollection _ :: _) :=
  raise (AttributeError "path");
stagein_loop (ITarget sandbox_input :: rest) (ITarget staged_input :: rest') :=
  emit (EvCopyToLocal sandbox_input staged_input) >>
  call (copy_to_local sandbox_input staged_input) >>
  stagein_loop rest rest'.
Proof.
  all: unfold _flat_target_list; rewrite ?queue_size_app;
    try pose proof (queue_size_flatten c); unfold queue_size in *; simpl; lia.
Qed.

(** The copy loop of [stageout] (lines 452-469). *)
Equations? stageout_loop (flat_sandbox_outputs flat_staged_outputs : list Item) : M unit
  by wf (queue_size flat_sandbox_outputs) lt :=
stageout_loop [] _ := ret tt;
stageout_loop (_ :: _) [] := raise (IndexError "pop from empty list");
stageout_loop (ICollection c :: rest) (ICollection c' :: rest') :=
  stageout_loop (_flat_target_list c ++ rest) (_flat_target_list c' ++ rest');
stageout_loop (ICollection _ :: _) (ITarget _ :: _) :=
  raise (AttributeError "_flat_target_list");
stageout_loop (ITarget _ :: _) (ICollection _ :: _) :=
  raise (AttributeError "path");
stageout_loop (ITarget sandbox_output :: rest) (ITarget staged_output :: rest') :=
  (let* present := gets (fun st => target_exists staged_output (world st)) in
   if present then
     emit (EvCopyFromLocal sandbox_output staged_output) >>
     call (copy_from_local sandbox_output staged_output)
   else
     emit (EvWarning ("could not find output target at " +:+ path staged_output
                      +:+ " for stage-out"))) >>
  stageout_loop rest rest'.
Proof.
  all: unfold _flat_target_list; rewrite ?queue_size_app;
    try pose proof (queue_size_flatten c); unfold queue_size in *; simpl; lia.
Qed.

(** [SandboxProxy.stagein(tmp_dir)] *)
Definition stagein (tmp_dir : string) : M (option StageInfo) :=
  let* inst := sandbox_inst in
  let* s := deref "get_config_section" inst in
  let section := get_config_section s None in
  match cfg_get_expanded section "stagein_dir_name" with
  | None => ret None
  | Some stagein_dir_name =>
      if negb (Str.truthy stagein_dir_name) then ret None
      else
        match sandbox_stagein task with
        | None => ret None
        | Some stagein_mask =>
            let* task_env := SandboxTask_env in
            let sandbox_inputs := input task task_env in
            match mask_struct stagein_mask sandbox_inputs with
            | None => ret None
            | Some sandbox_inputs =>
                if negb (struct_truthy sandbox_inputs) then ret None
                else
                  let stagein_dir := path (child tmp_dir stagein_dir_name "d") in
                  call (touch stagein_dir) >>
                  let staged_inputs := create_staged_target_struct stagein_dir sandbox_inputs in
                  stagein_loop (flatten sandbox_inputs) (flatten staged_inputs) >>
                  ret (Some (mkStageInfo sandbox_inputs stagein_dir staged_inputs))
            end
        end
  end.

(** [SandboxProxy.prepare_stageout(tmp_dir)] *)
Definition prepare_stageout (tmp_dir : string) : M (option StageInfo) :=
  let* inst := sandbox_inst in
  let* s := deref "get_config_section" inst in
  let section := get_config_section s None in
  match cfg_get_expanded section "stageout_dir_name" with
  | None => ret None
  | Some stageout_dir_name =>
      if negb (Str.truthy stageout_dir_name) then ret None
      else
        match sandbox_stageout task with
        | None => ret None
        | Some stageout_mask =>
            let* task_env := SandboxTask_env in
            let sandbox_outputs := output task task_env in
            match mask_struct stageout_mask sandbox_outputs with
            | None => ret None
            | Some sandbox_outputs =>
                if negb (struct_truthy sandbox_outputs) then ret None
                else
                  let stageout_dir := path (child tmp_dir stageout_dir_name "d") in
                  call (touch stageout_dir) >>
                  let staged_outputs := create_staged_target_struct stageout_dir sandbox_outputs in
                  ret (Some (mkStageInfo sandbox_outputs stageout_dir staged_outputs))
            end
        end
  end.

(** [SandboxProxy.stageout(stageout_info)] *)
Definition stageout (stageout_info : StageInfo) : M unit :=
  stageout_loop (flatten (targets stageout_info))
                (flatten (staged_targets stageout_info)).

Definition print_banner (msg : string) : M unit :=
  let* inst := sandbox_inst in
  let* s := deref "key" inst in
  emit (EvBanner msg (task_id task) (key s)).

(** [with self._run_context(cmd): body] *)
Definition _run_context {A} (body : M A) : M A :=
  print_banner "entering sandbox" >>
  try_finally body (print_banner "leaving sandbox").

(** The message of the exception raised for a non-zero exit code. *)
Definition run_failure_message (sandbox_key : string) (code : Z) : string :=
  "sandbox '" +:+ sandbox_key +:+ "' failed with exit code " +:+ Str.of_Z code
  +:+ ", please see the error inside the sandboxed context above for details".

Definition with_stagein_info (info : option StageInfo) (s : Sandbox) : Sandbox :=
  {| sandbox_type := sandbox_type s; name := name s;
     env_cache_key := env_cache_key s; create_env := create_env s; cmd := cmd s;
     stagein_info := info; stageout_info := stageout_info s |}.

Definition with_stageout_info (info : option StageInfo) (s : Sandbox) : Sandbox :=
  {| sandbox_type := sandbox_type s; name := name s;
     env_cache_key := env_cache_key s; create_env := create_env s; cmd := cmd s;
     stagein_info := stagein_info s; stageout_info := info |}.

(** [self.sandbox_inst.<attr> = info] *)
Definition update_sandbox_inst (attr : string) (f : Sandbox -> Sandbox) : M unit :=
  let* inst := sandbox_inst in
  let* s := deref attr inst in
  modify (fun st => set_task_fields (_sandbox_initialized st) (_effective_sandbox st)
                      (Some (f s)) (_sandbox_proxy st) st).

(** [SandboxProxy.run] *)
Definition SandboxProxy_run : M unit :=
  (match sandbox_before_run task with
   | Some hook => emit EvBeforeRun >> call hook
   | None => ret tt
   end) >>
  let* tmp_dir := call new_tmp_dir in
  let* info_in := stagein tmp_dir in
  (match info_in with
   | Some info => update_sandbox_inst "stagein_info" (with_stagein_info (Some info))
   | None => ret tt
   end) >>
  let* info_out := prepare_stageout tmp_dir in
  (match info_out with
   | Some info => update_sandbox_inst "stageout_info" (with_stageout_info (Some info))
   | None => ret tt
   end) >>
  let* inst := sandbox_inst in
  let* s := deref "cmd" inst in
  let* proxy_cmd := create_proxy_cmd in
  let* command := lift (cmd s (stagein_info s) (stageout_info s) proxy_cmd) in
  _run_context
    (let* inst := sandbox_inst in
     let* s := deref "run" inst in
     let* code := Sandbox_run s command in
     if negb (code =? 0)%Z then
       let* inst := sandbox_inst in
       let* s := deref "key" inst in
       raise (Exception (run_failure_message (key s) code))
     else ret tt) >>
  (match info_out with
   | Some info => stageout info
   | None => ret tt
   end) >>
  match sandbox_after_run task with
  | Some hook => emit EvAfterRun >> call hook
  | None => ret tt
  end.

End Engine.

(** * Properties *)

(** ** Strings *)

Lemma append_cons (c : ascii) (a b : string) : String c a +:+ b = String c (a +:+ b).
Proof. reflexivity. Qed.

Lemma append_assoc (a b c : string) : (a +:+ b) +:+ c = a +:+ (b +:+ c).
Proof.
  induction a as [| x a IH]; [reflexivity |].
  rewrite !append_cons. f_equal. exact IH.
Qed.

Lemma append_inv_head (a b c : string) : a +:+ b = a +:+ c -> b = c.
Proof.
  induction a as [| x a IH]; [trivial |].
  rewrite !append_cons. intros E. injection E. exact IH.
Qed.

Lemma prefix_cons (a b : ascii) (s1 s2 : string) :
  String.prefix (String a s1) (String b s2)
  = if ascii_dec a b then String.prefix s1 s2 else false.
Proof. reflexivity. Qed.


Lemma prefix_delimiter (s : string) :
  String.prefix delimiter s = true <-> exists r, s = String ":" (String ":" r).
Proof.
  unfold delimiter. split.
  - intros Hp. destruct s as [| c s]; [discriminate Hp |].
    rewrite prefix_cons in Hp.
    destruct (ascii_dec ":" c) as [<- |]; [| discriminate Hp].
    destruct s as [| d r]; [discriminate Hp |].
    rewrite prefix_cons in Hp.
    destruct (ascii_dec ":" d) as [<- |]; [| discriminate Hp].
    now exists r.
  - intros [r ->]. rewrite !prefix_cons.
    destruct (ascii_dec ":" ":") as [_ | Hne]; [| now destruct Hne].
    now destruct r.
Qed.

(** Whether the delimiter starts at the head of [String c s] depends on
    [c] and on the first character of [s] only. *)
Lemma prefix_delimiter_head (c : ascii) (s1 s2 : string) :
  (forall d, (exists r, s1 = String d r) <-> (exists r, s2 = String d r)) ->
  String.prefix delimiter (String c s1) = String.prefix delimiter (String c s2).
Proof.
  intros Hhead.
  destruct (String.prefix delimiter (String c s1)) eqn:E1;
    destruct (String.prefix delimiter (String c s2)) eqn:E2; try reflexivity; exfalso.
  - apply prefix_delimiter in E1 as [r E1]. injection E1 as -> E1.
    assert (E : String.prefix delimiter (String ":" s2) = true);
      [| rewrite E in E2; discriminate].
    apply prefix_delimiter. destruct (proj1 (Hhead ":"%char)) as [r' ->]; eauto.
  - apply prefix_delimiter in E2 as [r E2]. injection E2 as -> E2.
    assert (E : String.prefix delimiter (String ":" s1) = true);
      [| rewrite E in E1; discriminate].
    apply prefix_delimiter. destruct (proj2 (Hhead ":"%char)) as [r' ->]; eauto.
Qed.

Lemma head_append (t a b : string) (x : ascii) :
  forall d, (exists r, t +:+ String x a = String d r) <->
            (exists r, t +:+ String x b = String d r).
Proof.
  intros d. destruct t as [| c t]; rewrite ?append_cons;
    split; intros [r E]; injection E as -> _; eauto.
Qed.

(** The first occurrence of the delimiter in [t :: n] is the inserted one
    as soon as [t] followed by a colon contains none. *)
Lemma partition_join (t n : string) :
  Str.contains delimiter (t +:+ ":") = false ->
  Str.partition delimiter (t +:+ delimiter +:+ n) = (t, Some n).
Proof.
  induction t as [| c t IH]; intros Hfree.
  - change ("" +:+ delimiter +:+ n) with (String ":" (String ":" n)).
    cbn [Str.partition].
    now rewrite (proj2 (prefix_delimiter _) (ex_intro _ n eq_refl)).
  - rewrite append_cons in Hfree. cbn [Str.contains] in Hfree.
    apply orb_false_iff in Hfree as [Hhead Htail].
    rewrite append_cons. cbn [Str.partition].
    rewrite (prefix_delimiter_head c _ (t +:+ ":")), Hhead
      by (unfold delimiter; rewrite append_cons; apply head_append).
    rewrite (IH Htail). reflexivity.
Qed.

Lemma partition_append (s h t : string) :
  Str.partition delimiter s = (h, Some t) ->
  s = h +:+ delimiter +:+ t /\ Str.contains delimiter (h +:+ ":") = false.
Proof.
  revert h. induction s as [| c s IH]; intros h.
  - cbn. intros [=].
  - cbn [Str.partition].
    destruct (String.prefix delimiter (String c s)) eqn:Hp.
    + apply prefix_delimiter in Hp as [r Hp]. rewrite Hp.
      intros [= <- <-]. split; reflexivity.
    + destruct (Str.partition delimiter s) as [h' t'] eqn:Hs.
      intros [= <- ->]. destruct (IH h' eq_refl) as [-> Hfree].
      split; [reflexivity |].
      rewrite append_cons. cbn [Str.contains]. rewrite Hfree, orb_false_r.
      etransitivity; [| exact Hp]. apply prefix_delimiter_head.
      unfold delimiter. rewrite append_cons. apply head_append.
Qed.

Lemma contains_delimiter_snoc (t : string) :
  Str.contains delimiter t = false -> Str.endswith ":" t = false ->
  Str.contains delimiter (t +:+ ":") = false.
Proof.
  induction t as [| c t IH]; intros Hc He.
  - reflexivity.
  - cbn [Str.contains] in Hc. apply orb_false_iff in Hc as [Hhead Htail].
    cbn [Str.endswith] in He. apply orb_false_iff in He as [Heq Hend].
    rewrite append_cons. cbn [Str.contains]. rewrite (IH Htail Hend), orb_false_r.
    destruct (String.prefix delimiter (String c (t +:+ ":"))) eqn:Hp; [| reflexivity].
    apply prefix_delimiter in Hp as [r Hp]. injection Hp as -> Hp.
    destruct t as [| d t]; [vm_compute in Heq; discriminate Heq |].
    rewrite append_cons in Hp. injection Hp as -> _.
    now rewrite (proj2 (prefix_delimiter _) (ex_intro _ t eq_refl)) in Hhead.
Qed.


Lemma length_append (a b : string) :
  String.length (a +:+ b) = String.length a + String.length b.
Proof.
  induction a as [| x a IH]; [reflexivity |].
  rewrite append_cons. cbn [String.length]. now rewrite IH.
Qed.

Lemma append_inv_tail (a b c : string) : a +:+ c = b +:+ c -> a = b.
Proof.
  intros E. assert (Hlen : String.length a = String.length b).
  { apply (f_equal String.length) in E. rewrite !length_append in E. lia. }
  revert b E Hlen. induction a as [| x a IH]; intros [| y b] E Hlen;
    try discriminate Hlen; [reflexivity |].
  rewrite !append_cons in E. injection E as -> E. f_equal. apply IH; [exact E |].
  now injection Hlen.
Qed.

(** The decimal rendering of an integer determines it. *)
Lemma of_Z_inj (a b : Z) : Str.of_Z a = Str.of_Z b -> a = b.
Proof.
  unfold Str.of_Z. intros E.
  apply (f_equal NilEmpty.int_of_string) in E. rewrite !NilEmpty.isi in E.
  injection E as E. apply (f_equal Z.of_int) in E. now rewrite !DecimalZ.of_to in E.
Qed.

(** ** Sandbox keys *)


(** A valid part of a key as the data model words it: not empty, free of
    the delimiter and of commas. *)
Definition valid_part (p : string) : Prop :=
  p <> "" /\ Str.contains delimiter p = false /\ Str.contains "," p = false.

Lemma truthy_nonempty (s : string) : Str.truthy s = true <-> s <> "".
Proof. destruct s; simpl; split; congruence. Qed.

(** Splitting at the first delimiter, read as an equation on text. *)
Lemma split1_two (key t n : string) :
  Str.split1 delimiter key = [t; n]
  <-> key = t +:+ delimiter +:+ n /\ Str.contains delimiter (t +:+ ":") = false.
Proof.
  unfold Str.split1. split.
  - destruct (Str.partition delimiter key) as [h [r |]] eqn:Hp; intros [= -> ->].
    now apply partition_append.
  - intros [-> Hfree]. now rewrite partition_join.
Qed.

Lemma split_key_ok (key t n : string) :
  split_key key = Ok (t, n)
  <-> Str.split1 delimiter key = [t; n] /\ Str.strip t <> "" /\ Str.strip n <> "".
Proof.
  unfold split_key. rewrite <- !truthy_nonempty. split.
  - destruct (Str.split1 delimiter key) as [| a [| b [| c l]]]; try discriminate.
    cbn [existsb].
    destruct (Str.truthy (Str.strip a)) eqn:Ha, (Str.truthy (Str.strip b)) eqn:Hb;
      cbn; intros [= <- <-]; auto.
  - intros (-> & Ht & Hn). cbn [existsb]. rewrite Ht, Hn. reflexivity.
Qed.


(** Joining the two parts of a split key gives the key back. *)
Lemma join_split_key (key t n : string) :
  split_key key = Ok (t, n) -> join_key t n = key.
Proof.
  intros Hs. apply split_key_ok in Hs as [Hs _]. apply split1_two in Hs as [-> _].
  unfold join_key. apply append_assoc.
Qed.

Lemma split_join_key_first (t n : string) :
  Str.strip t <> "" -> Str.strip n <> "" ->
  Str.contains delimiter (t +:+ ":") = false ->
  split_key (join_key t n) = Ok (t, n).
Proof.
  intros Ht Hn Hfree. apply split_key_ok. repeat split; try assumption.
  apply split1_two. split; [apply append_assoc | assumption].
Qed.




(** C8 (as amended): for parts that are valid, contain a non-whitespace
    character and whose type does not end in a colon, splitting the joined
    key returns the pair. *)
Theorem split_join_key (t n : string) :
  valid_part t -> valid_part n ->
  Str.strip t <> "" -> Str.strip n <> "" ->
  Str.endswith ":" t = false ->
  split_key (join_key t n) = Ok (t, n).
Proof.
  intros (_ & Hfree & _) _ Ht Hn Hend.
  apply split_join_key_first; try assumption.
  now apply contains_delimiter_snoc.
Qed.

Lemma split_join_key_witness :
  split_key (join_key "docker" "image") = Ok ("docker", "image").
Proof.
  apply (split_join_key "docker" "image");
    try (repeat split; try discriminate; reflexivity); vm_compute; discriminate.
Defined.

(** C8 (as stated) fails: a type that ends in a colon moves the split
    point, and a part made of whitespace only is rejected. *)
Lemma split_join_key_counterexample :
  (valid_part "a:" /\ valid_part "b"
   /\ split_key (join_key "a:" "b") = Ok ("a", ":b"))
  /\ (valid_part " " /\ valid_part "b"
      /\ split_key (join_key " " "b") = Raise (ValueError "invalid sandbox key ' ::b'")).
Proof.
  repeat split; try discriminate.
Qed.

(** ** The environment cache *)

Section EnvCache.
Context `{Collaborators}.

Definition cache_key (s : Sandbox) : string * string :=
  (sandbox_type s, env_cache_key s).

(** The state after a resolver call that moved the world to [w]. *)
Definition after_resolve (s : Sandbox) (cache : gmap (string * string) Env)
    (w : World) (resolved : bool) (st : State) : State :=
  {| _envs := cache; world := w;
     trace := trace st ++ [EvCreateEnv (cache_key s) resolved];
     _sandbox_initialized := _sandbox_initialized st;
     _effective_sandbox := _effective_sandbox st;
     _sandbox_inst := _sandbox_inst st;
     _sandbox_proxy := _sandbox_proxy st |}.

Lemma Sandbox_env_hit (s : Sandbox) (st : State) (e : Env) :
  _envs st !! cache_key s = Some e -> Sandbox_env s st = (Ok e, st).
Proof.
  intros Hhit. unfold Sandbox_env, bind, gets. fold (cache_key s).
  rewrite Hhit. cbn. rewrite Hhit. reflexivity.
Qed.

Lemma Sandbox_env_miss (s : Sandbox) (st : State) :
  _envs st !! cache_key s = None ->
  Sandbox_env s st =
  match create_env s (world st) with
  | (Ok e, w) => (Ok e, after_resolve s (<[cache_key s := e]> (_envs st)) w true st)
  | (Raise x, w) => (Raise x, after_resolve s (_envs st) w false st)
  end.
Proof.
  intros Hmiss. unfold Sandbox_env, bind, gets. fold (cache_key s).
  rewrite Hmiss. unfold call_traced.
  destruct (create_env s (world st)) as [[e | x] w]; cbn; [| reflexivity].
  rewrite lookup_insert_eq. reflexivity.
Qed.

(** Successful resolver invocations recorded for a key. *)
Definition is_resolution (k : string * string) (ev : event) : bool :=
  match ev with
  | EvCreateEnv k' true => bool_decide (k' = k)
  | _ => false
  end.

Definition resolutions (k : string * string) (tr : list event) : nat :=
  length (List.filter (is_resolution k) tr).

(** A process lifetime: environment accesses one after the other, the
    state surviving an access that raised. *)
Definition accesses (l : list Sandbox) (st : State) : State :=
  fold_left (fun st s => (Sandbox_env s st).2) l st.

(** The cache holds a key exactly when one successful resolution of it
    is on record. *)
Definition cache_consistent (st : State) : Prop :=
  forall k, resolutions k (trace st) = match _envs st !! k with Some _ => 1 | None => 0 end.

Lemma resolutions_snoc (k : string * string) (tr : list event) (ev : event) :
  resolutions k (tr ++ [ev]) = resolutions k tr + (if is_resolution k ev then 1 else 0).
Proof.
  unfold resolutions. rewrite List.filter_app, length_app. cbn.
  destruct (is_resolution k ev); reflexivity.
Qed.

Lemma cache_consistent_step (s : Sandbox) (st : State) :
  cache_consistent st -> cache_consistent (Sandbox_env s st).2.
Proof.
  intros Hinv. destruct (_envs st !! cache_key s) as [e |] eqn:Hk.
  - now rewrite (Sandbox_env_hit _ _ _ Hk).
  - rewrite (Sandbox_env_miss _ _ Hk).
    destruct (create_env s (world st)) as [[e | x] w]; intros k;
      cbn [snd after_resolve trace _envs];
      rewrite resolutions_snoc, (Hinv k); cbn [is_resolution].
    + destruct (decide (cache_key s = k)) as [<- | Hne].
      * rewrite lookup_insert_eq, Hk, bool_decide_eq_true_2 by reflexivity. reflexivity.
      * rewrite lookup_insert_ne, bool_decide_eq_false_2 by assumption. lia.
    + lia.
Qed.

Lemma cache_consistent_accesses (l : list Sandbox) (st : State) :
  cache_consistent st -> cache_consistent (accesses l st).
Proof.
  revert st. induction l as [| s l IH]; intros st Hinv; [exact Hinv |].
  apply IH, cache_consistent_step, Hinv.
Qed.

(** C1: two accesses with the same cache key return the identical value,
    the second without any effect (the resolver runs for the first one
    only, and only when the key was not cached yet); a resolution that
    raises leaves the cache as it was and the next access calls the
    resolver again; over any sequence of accesses that starts with an
    empty cache and an empty record, each key has at most one successful
    resolution on record, and exactly one when it is cached. *)
Theorem env_resolved_once_per_key (s1 s2 : Sandbox) (st : State) :
  cache_key s1 = cache_key s2 ->
  (forall e st1,
      Sandbox_env s1 st = (Ok e, st1) ->
      Sandbox_env s2 st1 = (Ok e, st1)
      /\ resolutions (cache_key s1) (trace st1)
         = resolutions (cache_key s1) (trace st)
           + match _envs st !! cache_key s1 with Some _ => 0 | None => 1 end)
  /\ (forall x st1,
        Sandbox_env s1 st = (Raise x, st1) ->
        _envs st1 = _envs st
        /\ _envs st1 !! cache_key s1 = None
        /\ exists r w, create_env s2 (world st1) = (r, w)
             /\ (Sandbox_env s2 st1).1 = r
             /\ trace (Sandbox_env s2 st1).2
                = (trace st1 ++ [EvCreateEnv (cache_key s1) (is_ok r)])%list)
  /\ (forall l st0,
        _envs st0 = ∅ -> trace st0 = [] ->
        forall k, resolutions k (trace (accesses l st0))
                  = match _envs (accesses l st0) !! k with Some _ => 1 | None => 0 end).
Proof.
  intros Hkey.
  assert (Hfirst : _envs st !! cache_key s1 = None ->
                   exists r w, create_env s1 (world st) = (r, w)
                     /\ Sandbox_env s1 st
                        = match r with
                          | Ok e => (Ok e, after_resolve s1 (<[cache_key s1 := e]> (_envs st))
                                             w true st)
                          | Raise x => (Raise x, after_resolve s1 (_envs st) w false st)
                          end).
  { intros Hk. rewrite (Sandbox_env_miss _ _ Hk).
    destruct (create_env s1 (world st)) as [[e | x] w]; eauto. }
  split; [| split].
  - intros e st1 Hrun. destruct (_envs st !! cache_key s1) as [e' |] eqn:Hk.
    + rewrite (Sandbox_env_hit _ _ _ Hk) in Hrun. injection Hrun as <- <-.
      split; [| lia]. apply Sandbox_env_hit. now rewrite <- Hkey.
    + destruct (Hfirst eq_refl) as ([e' | x] & w & _ & Hs); rewrite Hs in Hrun;
        [| discriminate Hrun].
      injection Hrun as <- <-. split.
      * apply Sandbox_env_hit. cbn [after_resolve _envs].
        rewrite <- Hkey. apply lookup_insert_eq.
      * cbn [after_resolve trace]. rewrite resolutions_snoc. cbn [is_resolution].
        now rewrite bool_decide_eq_true_2.
  - intros x st1 Hrun. destruct (_envs st !! cache_key s1) as [e' |] eqn:Hk.
    { rewrite (Sandbox_env_hit _ _ _ Hk) in Hrun. discriminate Hrun. }
    destruct (Hfirst eq_refl) as ([e' | x'] & w & _ & Hs); rewrite Hs in Hrun;
      [discriminate Hrun |].
    injection Hrun as <- <-. cbn [after_resolve _envs world trace].
    split; [reflexivity |]. split; [exact Hk |].
    assert (Hmiss : _envs (after_resolve s1 (_envs st) w false st) !! cache_key s2 = None)
      by now rewrite <- Hkey.
    rewrite (Sandbox_env_miss _ _ Hmiss). cbn [after_resolve world trace].
    destruct (create_env s2 w) as [[e' | x''] w']; eexists _, _;
      (split; [reflexivity |]); (split; [reflexivity |]);
      cbn [snd after_resolve trace]; now rewrite Hkey.
  - intros l st0 Hempty Hnil. apply cache_consistent_accesses.
    intros k. now rewrite Hempty, Hnil, lookup_empty.
Qed.

End EnvCache.

(** ** What a computation adds to the record *)

Section Emits.
Context `{Collaborators}.

(** [m] only appends events, all of them satisfying [P]. *)
Definition emits {A} (P : event -> Prop) (m : M A) : Prop :=
  forall st, exists evs, trace (m st).2 = (trace st ++ evs)%list /\ Forall P evs.

Lemma emits_silent {A} (P : event -> Prop) (m : M A) :
  (forall st, trace (m st).2 = trace st) -> emits P m.
Proof.
  intros Hm st. exists []. rewrite Hm, app_nil_r. split; [reflexivity | constructor].
Qed.

Lemma emits_ret {A} (P : event -> Prop) (a : A) : emits P (ret a).
Proof. now apply emits_silent. Qed.

Lemma emits_raise {A} (P : event -> Prop) (e : exn) : emits P (raise (A := A) e).
Proof. now apply emits_silent. Qed.

Lemma emits_lift {A} (P : event -> Prop) (r : result A) : emits P (lift r).
Proof. now apply emits_silent. Qed.

Lemma emits_gets {A} (P : event -> Prop) (f : State -> A) : emits P (gets f).
Proof. now apply emits_silent. Qed.

Lemma emits_deref {A} (P : event -> Prop) (attr : string) (o : option A) :
  emits P (deref attr o).
Proof. destruct o; [apply emits_ret | apply emits_raise]. Qed.

Lemma emits_call {A} (P : event -> Prop) (f : World -> result A * World) :
  emits P (call f).
Proof.
  apply emits_silent. intros st. unfold call. now destruct (f (world st)).
Qed.

Lemma emits_emit (P : event -> Prop) (e : event) : P e -> emits P (emit e).
Proof.
  intros He st. exists [e]. split; [reflexivity | now repeat constructor].
Qed.

Lemma emits_call_traced {A} (P : event -> Prop) (f : World -> result A * World)
    (ev : result A -> event) :
  (forall r, P (ev r)) -> emits P (call_traced f ev).
Proof.
  intros He st. unfold call_traced. destruct (f (world st)) as [r w].
  exists [ev r]. split; [reflexivity | now repeat constructor].
Qed.

Lemma emits_bind {A B} (P : event -> Prop) (m : M A) (k : A -> M B) :
  emits P m -> (forall a, emits P (k a)) -> emits P (bind m k).
Proof.
  intros Hm Hk st. unfold bind. destruct (Hm st) as (evs & Htr & Hevs).
  destruct (m st) as [[a | e] st1]; cbn [snd] in *.
  - destruct (Hk a st1) as (evs' & Htr' & Hevs').
    exists (evs ++ evs')%list. rewrite Htr', Htr, app_assoc.
    split; [reflexivity | now apply Forall_app].
  - now exists evs.
Qed.

Lemma emits_try_finally {A} (P : event -> Prop) (body : M A) (handler : M unit) :
  emits P body -> emits P handler -> emits P (try_finally body handler).
Proof.
  intros Hb Hh st. unfold try_finally. destruct (Hb st) as (evs & Htr & Hevs).
  destruct (body st) as [r st1]; cbn [snd] in *.
  destruct (Hh st1) as (evs' & Htr' & Hevs').
  destruct (handler st1) as [[[] | e] st2]; cbn [snd] in *;
    exists (evs ++ evs')%list; rewrite Htr', Htr, app_assoc;
    (split; [reflexivity | now apply Forall_app]).
Qed.

Lemma emits_weaken {A} (P Q : event -> Prop) (m : M A) :
  (forall e, P e -> Q e) -> emits P m -> emits Q m.
Proof.
  intros HPQ Hm st. destruct (Hm st) as (evs & Htr & Hevs).
  exists evs. split; [assumption |]. eapply Forall_impl; eauto.
Qed.

Definition no_event (ev : event) : Prop := False.

Lemma emits_nothing {A} (m : M A) (st : State) :
  emits no_event m -> trace (m st).2 = trace st.
Proof.
  intros Hm. destruct (Hm st) as (evs & -> & Hevs).
  destruct Hevs as [| ev evs []]. apply app_nil_r.
Qed.

End Emits.

Ltac emits_step :=
  lazymatch goal with
  | |- emits _ (bind _ _) => apply emits_bind; [| intros ?]
  | |- emits _ (ret _) => apply emits_ret
  | |- emits _ (raise _) => apply emits_raise
  | |- emits _ (lift _) => apply emits_lift
  | |- emits _ (gets _) => apply emits_gets
  | |- emits _ (deref _ _) => apply emits_deref
  | |- emits _ (call _) => apply emits_call
  | |- emits _ (modify _) => apply emits_silent; reflexivity
  | |- emits _ (try_finally _ _) => apply emits_try_finally
  | |- emits _ (emit _) => apply emits_emit; exact I
  | |- emits _ (call_traced _ _) => apply emits_call_traced; intros ?; exact I
  | |- emits _ (match ?x with _ => _ end) => destruct x
  | |- emits _ (if ?x then _ else _) => destruct x
  end.

(** ** Phases of a proxy run and the events of each *)

Section Phases.
Context `{Collaborators}.
Variable amb : Ambient.
Variable registry : list SandboxClass.
Variable task : Task.

(** Events of the phases before the command runs. *)
Definition setup_event (ev : event) : Prop :=
  match ev with
  | EvBeforeRun | EvCreateEnv _ _ | EvCopyToLocal _ _ => True
  | _ => False
  end.

(** Events of the [RUNNING] phase. *)
Definition running_event (ev : event) : Prop :=
  match ev with
  | EvCreateEnv _ _ | EvBanner _ _ _ | EvPopen _ _ => True
  | _ => False
  end.

(** Events of stage-out and of the [after_run] hook. *)
Definition finish_event (ev : event) : Prop :=
  match ev with
  | EvCopyFromLocal _ _ | EvWarning _ | EvAfterRun => True
  | _ => False
  end.

Definition resolver_event (ev : event) : Prop :=
  match ev with
  | EvCreateEnv _ _ => True
  | _ => False
  end.

Lemma emits_initialize_sandbox (force : bool) :
  emits no_event (_initialize_sandbox amb registry task force).
Proof.
  unfold _initialize_sandbox, set_effective_sandbox. repeat emits_step.
Qed.

Lemma emits_sandbox_inst : emits no_event (sandbox_inst amb registry task).
Proof.
  unfold sandbox_inst. emits_step; [apply emits_initialize_sandbox | emits_step].
Qed.

Lemma emits_is_sandboxed : emits no_event (is_sandboxed amb registry task).
Proof.
  unfold is_sandboxed, effective_sandbox.
  repeat first [apply emits_initialize_sandbox | apply emits_sandbox_inst | emits_step].
Qed.

Lemma emits_Sandbox_env (s : Sandbox) : emits resolver_event (Sandbox_env s).
Proof. unfold Sandbox_env. repeat emits_step. Qed.

Lemma emits_SandboxTask_env : emits resolver_event (SandboxTask_env amb registry task).
Proof.
  unfold SandboxTask_env.
  repeat first [ apply emits_Sandbox_env
               | eapply emits_weaken; [| apply emits_is_sandboxed]; intros ? []
               | eapply emits_weaken; [| apply emits_sandbox_inst]; intros ? []
               | emits_step ].
Qed.

Lemma emits_create_proxy_cmd : emits no_event (create_proxy_cmd amb registry task).
Proof.
  unfold create_proxy_cmd, sandbox_law_executable.
  repeat first [apply emits_sandbox_inst | emits_step].
Qed.

Lemma emits_update_sandbox_inst (attr : string) (f : Sandbox -> Sandbox) :
  emits no_event (update_sandbox_inst amb registry task attr f).
Proof.
  unfold update_sandbox_inst. repeat first [apply emits_sandbox_inst | emits_step].
Qed.

Lemma emits_stagein_loop (q1 q2 : list Item) : emits setup_event (stagein_loop q1 q2).
Proof.
  funelim (stagein_loop q1 q2); simp stagein_loop; repeat emits_step; intros st;
    match goal with
    | IH : _ |- _ => first [exact (IH st st) | exact (IH tt st st) | exact (IH tt tt st st)]
    end.
Qed.

Lemma emits_stageout_loop (q1 q2 : list Item) : emits finish_event (stageout_loop q1 q2).
Proof.
  funelim (stageout_loop q1 q2); simp stageout_loop; repeat emits_step; intros st;
    match goal with
    | IH : _ |- _ => first [exact (IH st st) | exact (IH tt st st) | exact (IH tt tt st st)]
    end.
Qed.

Lemma emits_stagein (tmp_dir : string) :
  emits setup_event (stagein amb registry task tmp_dir).
Proof.
  unfold stagein.
  repeat first [ apply emits_stagein_loop
               | eapply emits_weaken; [| apply emits_SandboxTask_env]; intros [] ; easy
               | eapply emits_weaken; [| apply emits_sandbox_inst]; intros ? []
               | emits_step ].
Qed.

Lemma emits_prepare_stageout (tmp_dir : string) :
  emits setup_event (prepare_stageout amb registry task tmp_dir).
Proof.
  unfold prepare_stageout.
  repeat first [ eapply emits_weaken; [| apply emits_SandboxTask_env]; intros [] ; easy
               | eapply emits_weaken; [| apply emits_sandbox_inst]; intros ? []
               | emits_step ].
Qed.

(** Lines 329-352 of [run]: the [before_run] hook, staging, and the
    command to run. *)
Definition run_setup : M (option StageInfo * string) :=
  (match sandbox_before_run task with
   | Some hook => emit EvBeforeRun >> call hook
   | None => ret tt
   end) >>
  let* tmp_dir := call new_tmp_dir in
  let* info_in := stagein amb registry task tmp_dir in
  (match info_in with
   | Some info =>
       update_sandbox_inst amb registry task "stagein_info" (with_stagein_info (Some info))
   | None => ret tt
   end) >>
  let* info_out := prepare_stageout amb registry task tmp_dir in
  (match info_out with
   | Some info =>
       update_sandbox_inst amb registry task "stageout_info" (with_stageout_info (Some info))
   | None => ret tt
   end) >>
  let* inst := sandbox_inst amb registry task in
  let* s := deref "cmd" inst in
  let* proxy_cmd := create_proxy_cmd amb registry task in
  let* command := lift (cmd s (stagein_info s) (stageout_info s) proxy_cmd) in
  ret (info_out, command).

(** Lines 354-361 of [run]: the subprocess between the two banners. *)
Definition run_command (command : string) : M unit :=
  _run_context amb registry task
    (let* inst := sandbox_inst amb registry task in
     let* s := deref "run" inst in
     let* code := Sandbox_run s command in
     if negb (code =? 0)%Z then
       let* inst := sandbox_inst amb registry task in
       let* s := deref "key" inst in
       raise (Exception (run_failure_message (key s) code))
     else ret tt).

(** Lines 363-369 of [run]: stage-out and the [after_run] hook. *)
Definition run_finish (info_out : option StageInfo) : M unit :=
  (match info_out with
   | Some info => stageout info
   | None => ret tt
   end) >>
  match sandbox_after_run task with
  | Some hook => emit EvAfterRun >> call hook
  | None => ret tt
  end.

(** [run] is the three phases one after the other. *)
Lemma run_phases (st : State) :
  SandboxProxy_run amb registry task st =
  match run_setup st with
  | (Raise e, st1) => (Raise e, st1)
  | (Ok (info_out, command), st1) =>
      match run_command command st1 with
      | (Raise e, st2) => (Raise e, st2)
      | (Ok _, st2) => run_finish info_out st2
      end
  end.
Proof.
  unfold SandboxProxy_run, run_setup, run_command, run_finish, bind.
  repeat (match goal with
          | |- context [match ?m ?s with _ => _ end] =>
              lazymatch type of s with
              | State => destruct (m s) as [[?|?] ?]
              end
          end; cbn [ret]; try reflexivity).
Qed.

End Phases.

(** ** What a computation leaves untouched *)

Section Frames.
Context `{Collaborators}.

(** Every state that [m] can end in is related to the state it started
    from. *)
Definition steps {A} (R : State -> State -> Prop) (m : M A) : Prop :=
  forall st, R st (m st).2.

Lemma steps_id {A} (R : State -> State -> Prop) `{!Reflexive R} (m : M A) :
  (forall st, (m st).2 = st) -> steps R m.
Proof. intros Hm st. rewrite Hm. reflexivity. Qed.

Lemma steps_bind {A B} (R : State -> State -> Prop) `{!Transitive R}
    (m : M A) (k : A -> M B) :
  steps R m -> (forall a, steps R (k a)) -> steps R (bind m k).
Proof.
  intros Hm Hk st. unfold bind. specialize (Hm st).
  destruct (m st) as [[a | e] st1]; cbn [snd] in *; [| assumption].
  etransitivity; [exact Hm | apply Hk].
Qed.

Lemma steps_try_finally {A} (R : State -> State -> Prop) `{!Transitive R}
    (body : M A) (handler : M unit) :
  steps R body -> steps R handler -> steps R (try_finally body handler).
Proof.
  intros Hb Hh st. unfold try_finally. specialize (Hb st).
  destruct (body st) as [r st1]; cbn [snd] in *. specialize (Hh st1).
  destruct (handler st1) as [[[] | e] st2]; cbn [snd] in *; etransitivity; eauto.
Qed.

(** The fields of the task object are the same in both states. *)
Definition same_task (st st' : State) : Prop :=
  _sandbox_initialized st' = _sandbox_initialized st
  /\ _effective_sandbox st' = _effective_sandbox st
  /\ _sandbox_inst st' = _sandbox_inst st
  /\ _sandbox_proxy st' = _sandbox_proxy st.

#[global] Instance same_task_refl : Reflexive same_task.
Proof. intros st. repeat split. Qed.

#[global] Instance same_task_trans : Transitive same_task.
Proof.
  intros a b c (H1 & H2 & H3 & H4) (H1' & H2' & H3' & H4').
  repeat split; congruence.
Qed.

Lemma same_task_call {A} (f : World -> result A * World) : steps same_task (call f).
Proof. intros st. unfold call. destruct (f (world st)). repeat split. Qed.

Lemma same_task_call_traced {A} (f : World -> result A * World) (ev : result A -> event) :
  steps same_task (call_traced f ev).
Proof. intros st. unfold call_traced. destruct (f (world st)). repeat split. Qed.

Lemma same_task_emit (e : event) : steps same_task (emit e).
Proof. intros st. repeat split. Qed.

End Frames.

(** One step through a computation; [fin] closes the goal for a primitive
    once its effect on the state is exposed. *)
Ltac steps_step fin :=
  lazymatch goal with
  | |- steps _ (bind _ _) => apply steps_bind; [exact _ | | intros ?]
  | |- steps _ (try_finally _ _) => apply steps_try_finally; [exact _ | |]
  | |- steps _ (match ?x with _ => _ end) => destruct x
  | |- steps _ (if ?x then _ else _) => destruct x
  | |- steps _ (deref _ ?o) => destruct o
  | |- steps _ (call ?f) =>
      let st := fresh "st" in
      intros st; unfold call; destruct (f (world st)); fin
  | |- steps _ (call_traced ?f _) =>
      let st := fresh "st" in
      intros st; unfold call_traced; destruct (f (world st)); fin
  | |- steps _ _ => let st := fresh "st" in intros st; fin
  end.

Ltac same_task_step := steps_step ltac:(repeat split; reflexivity).

Section FramesEngine.
Context `{Collaborators}.
Variable amb : Ambient.
Variable registry : list SandboxClass.
Variable task : Task.

Lemma same_task_Sandbox_env (s : Sandbox) : steps same_task (Sandbox_env s).
Proof.
  unfold Sandbox_env. repeat same_task_step.
Qed.

Lemma same_task_Sandbox_run (s : Sandbox) (command : string) :
  steps same_task (Sandbox_run s command).
Proof.
  unfold Sandbox_run. repeat first [apply same_task_Sandbox_env | same_task_step].
Qed.

Lemma same_task_stageout_loop (q1 q2 : list Item) : steps same_task (stageout_loop q1 q2).
Proof.
  funelim (stageout_loop q1 q2); simp stageout_loop; repeat same_task_step; intros st;
    match goal with
    | IH : _ |- _ => first [exact (IH st st) | exact (IH tt st st) | exact (IH tt tt st st)]
    end.
Qed.

(** Once the controller has resolved, it stays resolved. *)
Definition stays_initialized (st st' : State) : Prop :=
  _sandbox_initialized st = true -> _sandbox_initialized st' = true.

#[local] Instance stays_initialized_refl : Reflexive stays_initialized.
Proof. intros st. exact id. Qed.

#[local] Instance stays_initialized_trans : Transitive stays_initialized.
Proof. intros a b c Hab Hbc Ha. auto. Qed.

Lemma initialize_sandbox_initialized (force : bool) (st : State) :
  _sandbox_initialized (_initialize_sandbox amb registry task force st).2 = true.
Proof.
  unfold _initialize_sandbox, bind at 1, gets. cbn [fst snd].
  destruct (_sandbox_initialized st && negb force) eqn:Hinit.
  { cbn. apply andb_true_iff in Hinit. tauto. }
  match goal with
  | |- _sandbox_initialized (bind ?m ?k st).2 = true =>
      assert (Hk : forall a, steps stays_initialized (k a))
  end.
  { intros a. unfold set_effective_sandbox.
    repeat steps_step ltac:(exact id). }
  unfold bind at 1, modify at 1. apply Hk; reflexivity.
Qed.

Lemma initialize_sandbox_noop (st : State) :
  _sandbox_initialized st = true ->
  _initialize_sandbox amb registry task false st = (Ok tt, st).
Proof.
  intros Hinit. unfold _initialize_sandbox, bind, gets. now rewrite Hinit.
Qed.

Lemma sandbox_inst_noop (st : State) :
  _sandbox_initialized st = true ->
  sandbox_inst amb registry task st = (Ok (_sandbox_inst st), st).
Proof.
  intros Hinit. unfold sandbox_inst, bind. now rewrite initialize_sandbox_noop.
Qed.

Lemma sandbox_inst_returns (st st' : State) (inst : option Sandbox) :
  sandbox_inst amb registry task st = (Ok inst, st') ->
  _sandbox_initialized st' = true /\ _sandbox_inst st' = inst /\ trace st' = trace st.
Proof.
  intros Hs.
  pose proof (emits_nothing _ st (emits_sandbox_inst amb registry task)) as Htr.
  rewrite Hs in Htr. revert Hs. unfold sandbox_inst, bind, gets.
  pose proof (initialize_sandbox_initialized false st) as Hinit.
  destruct (_initialize_sandbox amb registry task false st) as [[[] | e] st1];
    intros [= <- <-]. auto.
Qed.

End FramesEngine.

(** ** The proxy run *)

Section Run.
Context `{Collaborators}.
Variable amb : Ambient.
Variable registry : list SandboxClass.
Variable task : Task.

Lemma emits_run_setup : emits setup_event (run_setup amb registry task).
Proof.
  unfold run_setup.
  repeat first [ apply emits_stagein
               | apply emits_prepare_stageout
               | eapply emits_weaken; [| apply emits_sandbox_inst]; intros ? []
               | eapply emits_weaken; [| apply emits_create_proxy_cmd]; intros ? []
               | eapply emits_weaken; [| apply emits_update_sandbox_inst]; intros ? []
               | emits_step ].
Qed.

Lemma emits_run_finish (info_out : option StageInfo) : emits finish_event (run_finish task info_out).
Proof.
  unfold run_finish, stageout.
  repeat first [apply emits_stageout_loop | emits_step].
Qed.

(** A second look at [sandbox_inst] changes nothing. *)
Lemma sandbox_inst_again {A} (k : option Sandbox -> M A) (st st1 : State) (inst : option Sandbox) :
  sandbox_inst amb registry task st = (Ok inst, st1) ->
  bind (sandbox_inst amb registry task) k st = bind (sandbox_inst amb registry task) k st1.
Proof.
  intros Hs. destruct (sandbox_inst_returns _ _ _ _ _ _ Hs) as (Hinit & Hinst & _).
  unfold bind. rewrite Hs, (sandbox_inst_noop _ _ _ _ Hinit), Hinst. reflexivity.
Qed.

Definition entering (s : Sandbox) : event :=
  EvBanner "entering sandbox" (task_id task) (key s).

Definition leaving (s : Sandbox) : event :=
  EvBanner "leaving sandbox" (task_id task) (key s).

(** The outcome of the [RUNNING] phase for an exit code. *)
Definition exit_outcome (s : Sandbox) (code : Z) : result unit :=
  if (code =? 0)%Z then Ok tt
  else Raise (Exception (run_failure_message (key s) code)).

Lemma bind_Ok {A B} (m : M A) (k : A -> M B) (st st1 : State) (a : A) :
  m st = (Ok a, st1) -> bind m k st = k a st1.
Proof. intros Hm. unfold bind. now rewrite Hm. Qed.

Lemma bind_Raise {A B} (m : M A) (k : A -> M B) (st st1 : State) (e : exn) :
  m st = (Raise e, st1) -> bind m k st = (Raise e, st1).
Proof. intros Hm. unfold bind. now rewrite Hm. Qed.

Lemma print_banner_ready (msg : string) (st : State) (s : Sandbox) :
  _sandbox_initialized st = true -> _sandbox_inst st = Some s ->
  print_banner amb registry task msg st
  = (Ok tt, log (EvBanner msg (task_id task) (key s)) st).
Proof.
  intros Hinit Hinst. unfold print_banner.
  erewrite bind_Ok by (now apply sandbox_inst_noop). rewrite Hinst. reflexivity.
Qed.

Lemma Sandbox_run_unfold (s : Sandbox) (command : string) (st : State) :
  Sandbox_run s command st =
  match Sandbox_env s st with
  | (Raise x, ste) => (Raise x, ste)
  | (Ok e, ste) =>
      match interruptable_popen command e (world ste) with
      | (rp, w) => (rp, log (EvPopen command rp) (set_world w ste))
      end
  end.
Proof.
  unfold Sandbox_run, bind, call_traced.
  destruct (Sandbox_env s st) as [[e | x] ste]; reflexivity.
Qed.

(** The message of the failure determines the exit code. *)
Lemma run_failure_message_inj (k : string) (a b : Z) :
  run_failure_message k a = run_failure_message k b -> a = b.
Proof.
  unfold run_failure_message. intros E.
  do 3 apply append_inv_head in E. now apply append_inv_tail, of_Z_inj in E.
Qed.

(** The [RUNNING] phase once the controller holds the sandbox [s]. *)
Lemma run_command_ready (command : string) (st : State) (s : Sandbox) :
  _sandbox_initialized st = true -> _sandbox_inst st = Some s ->
  run_command amb registry task command st =
  match Sandbox_env s (log (entering s) st) with
  | (Raise x, ste) => (Raise x, log (leaving s) ste)
  | (Ok e, ste) =>
      match interruptable_popen command e (world ste) with
      | (rp, w) =>
          (match rp with
           | Raise x => Raise x
           | Ok code => exit_outcome s code
           end,
           log (leaving s) (log (EvPopen command rp) (set_world w ste)))
      end
  end.
Proof.
  intros Hinit Hinst. unfold run_command, _run_context.
  erewrite bind_Ok by (eapply print_banner_ready; eassumption). fold (entering s).
  unfold try_finally.
  erewrite bind_Ok by (apply sandbox_inst_noop; exact Hinit).
  cbn [log _sandbox_inst]. rewrite Hinst. cbn [deref].
  erewrite (bind_Ok (ret s)) by reflexivity.
  pose proof (same_task_Sandbox_env s (log (entering s) st)) as (Hi & _ & Hs & _).
  pose proof (Sandbox_run_unfold s command (log (entering s) st)) as Hrun.
  destruct (Sandbox_env s (log (entering s) st)) as [[e | x] ste];
    cbn [snd log _sandbox_initialized _sandbox_inst] in Hi, Hs;
    rewrite Hinit in Hi; rewrite Hinst in Hs.
  - destruct (interruptable_popen command e (world ste)) as [[code | x] w].
    + erewrite bind_Ok by exact Hrun. unfold exit_outcome.
      destruct (code =? 0)%Z; cbn [negb].
      * unfold ret. cbv beta iota.
        erewrite print_banner_ready by (cbn; eassumption). reflexivity.
      * erewrite bind_Ok by (apply sandbox_inst_noop; cbn; eassumption).
        cbn [log set_world _sandbox_inst]. rewrite Hs. cbn [deref].
        erewrite (bind_Ok (ret s)) by reflexivity. unfold raise. cbv beta iota.
        erewrite print_banner_ready by (cbn; eassumption). reflexivity.
    + erewrite bind_Raise by exact Hrun. cbv beta iota.
      erewrite print_banner_ready by (cbn; eassumption). reflexivity.
  - erewrite bind_Raise by exact Hrun. cbv beta iota.
    erewrite print_banner_ready by (cbn; eassumption). reflexivity.
Qed.

Lemma resolver_not_popen (evs : list event) (c : string) (rp : result Z) :
  Forall resolver_event evs -> ~ In (EvPopen c rp) evs.
Proof.
  intros Hall Hin. rewrite Forall_forall in Hall.
  apply list_elem_of_In, Hall in Hin. exact Hin.
Qed.

(** The [RUNNING] phase: its events, and its outcome as a function of the
    exit code on record. *)
Lemma run_command_outcome (command : string) (st st' : State) (r : result unit) :
  run_command amb registry task command st = (r, st') ->
  exists evs,
    trace st' = (trace st ++ evs)%list
    /\ Forall running_event evs
    /\ forall c code,
         In (EvPopen c (Ok code)) evs ->
         c = command
         /\ exists s, _sandbox_inst st' = Some s /\ r = exit_outcome s code.
Proof.
  intros Hrun.
  destruct (sandbox_inst amb registry task st) as [[[s |] | x] st1] eqn:Hs.
  - destruct (sandbox_inst_returns _ _ _ _ _ _ Hs) as (Hinit & Hinst & Htr).
    assert (Hsame : run_command amb registry task command st
                    = run_command amb registry task command st1).
    { unfold run_command, _run_context, print_banner.
      unfold bind at 1. symmetry. unfold bind at 1.
      now rewrite (sandbox_inst_again _ _ _ _ Hs). }
    rewrite Hsame, (run_command_ready _ _ _ Hinit Hinst) in Hrun. rewrite <- Htr.
    pose proof (emits_Sandbox_env s (log (entering s) st1)) as (evs & Hevs & Hres).
    pose proof (same_task_Sandbox_env s (log (entering s) st1)) as (_ & _ & Hkeep & _).
    destruct (Sandbox_env s (log (entering s) st1)) as [[e | x] ste];
      cbn [snd log trace _sandbox_inst] in Hevs, Hkeep.
    + destruct (interruptable_popen command e (world ste)) as [rp w].
      injection Hrun as <- <-.
      exists ([entering s] ++ evs ++ [EvPopen command rp; leaving s])%list.
      cbn [log set_world trace _sandbox_inst]. rewrite Hevs, Hkeep, Hinst.
      split; [now rewrite <- !app_assoc |]. split.
      * apply Forall_app. split; [now repeat constructor |].
        apply Forall_app. split; [| now repeat constructor].
        eapply Forall_impl; [exact Hres |]. now intros [].
      * intros c code Hin. apply in_app_or in Hin as [[Hin | []] | Hin]; [discriminate Hin |].
        apply in_app_or in Hin as [Hin | [Hin | [Hin | []]]].
        -- now apply resolver_not_popen in Hin.
        -- injection Hin as <- ->. eauto.
        -- discriminate Hin.
    + injection Hrun as <- <-.
      exists ([entering s] ++ evs ++ [leaving s])%list.
      cbn [log trace]. rewrite Hevs.
      split; [now rewrite <- !app_assoc |]. split.
      * apply Forall_app. split; [now repeat constructor |].
        apply Forall_app. split; [| now repeat constructor].
        eapply Forall_impl; [exact Hres |]. now intros [].
      * intros c code Hin. apply in_app_or in Hin as [[Hin | []] | Hin]; [discriminate Hin |].
        apply in_app_or in Hin as [Hin | [Hin | []]].
        -- now apply resolver_not_popen in Hin.
        -- discriminate Hin.
  - pose proof (emits_nothing _ st (emits_sandbox_inst amb registry task)) as Htr.
    rewrite Hs in Htr. revert Hrun.
    unfold run_command, _run_context, print_banner.
    unfold bind at 1. unfold bind at 1. rewrite Hs. intros [= <- <-].
    exists []. rewrite app_nil_r. cbn [snd] in Htr.
    split; [now symmetry |]. split; [constructor |]. intros c code [].
  - pose proof (emits_nothing _ st (emits_sandbox_inst amb registry task)) as Htr.
    rewrite Hs in Htr. revert Hrun.
    unfold run_command, _run_context, print_banner.
    unfold bind at 1. unfold bind at 1. rewrite Hs. intros [= <- <-].
    exists []. rewrite app_nil_r. cbn [snd] in Htr.
    split; [now symmetry |]. split; [constructor |]. intros c code [].
Qed.

Lemma bind_inv_Ok {A B} (m : M A) (k : A -> M B) (st st' : State) (b : B) :
  bind m k st = (Ok b, st') ->
  exists a st1, m st = (Ok a, st1) /\ k a st1 = (Ok b, st').
Proof.
  unfold bind. destruct (m st) as [[a | e] st1]; [eauto | discriminate].
Qed.

(** The stage-out information that [prepare_stageout] returns pairs the
    outputs with their staged copies under its directory. *)
Definition staged_under_stage_dir (info : StageInfo) : Prop :=
  staged_targets info = create_staged_target_struct (stage_dir info) (targets info).

Lemma prepare_stageout_info (tmp_dir : string) (st st' : State) (info : StageInfo) :
  prepare_stageout amb registry task tmp_dir st = (Ok (Some info), st') ->
  staged_under_stage_dir info.
Proof.
  unfold prepare_stageout. intros Hp.
  apply bind_inv_Ok in Hp as (inst & st1 & _ & Hp).
  apply bind_inv_Ok in Hp as (s & st2 & _ & Hp).
  destruct (cfg_get_expanded _ _) as [dir_name |]; [| discriminate Hp].
  destruct (negb (Str.truthy dir_name)); [discriminate Hp |].
  destruct (sandbox_stageout task) as [mask |]; [| discriminate Hp].
  apply bind_inv_Ok in Hp as (task_env & st3 & _ & Hp).
  destruct (mask_struct mask _) as [outs |]; [| discriminate Hp].
  destruct (negb (struct_truthy outs)); [discriminate Hp |].
  apply bind_inv_Ok in Hp as ([] & st4 & _ & Hp).
  injection Hp as <- _. reflexivity.
Qed.

Lemma run_setup_info (st st1 : State) (info : StageInfo) (command : string) :
  run_setup amb registry task st = (Ok (Some info, command), st1) ->
  staged_under_stage_dir info.
Proof.
  unfold run_setup. intros Hs.
  apply bind_inv_Ok in Hs as (? & ? & _ & Hs).
  apply bind_inv_Ok in Hs as (tmp_dir & ? & _ & Hs).
  apply bind_inv_Ok in Hs as (info_in & ? & _ & Hs).
  apply bind_inv_Ok in Hs as (? & ? & _ & Hs).
  apply bind_inv_Ok in Hs as (info_out & ? & Hprep & Hs).
  apply bind_inv_Ok in Hs as (? & ? & _ & Hs).
  apply bind_inv_Ok in Hs as (inst & ? & _ & Hs).
  apply bind_inv_Ok in Hs as (s & ? & _ & Hs).
  apply bind_inv_Ok in Hs as (proxy_cmd & ? & _ & Hs).
  apply bind_inv_Ok in Hs as (command' & ? & _ & Hs).
  injection Hs as -> _ _. eapply prepare_stageout_info, Hprep.
Qed.

Lemma Forall_not_In (P : event -> Prop) (evs : list event) (ev : event) :
  Forall P evs -> ~ P ev -> ~ In ev evs.
Proof.
  intros Hall Hno Hin. rewrite Forall_forall in Hall.
  apply Hno, Hall, list_elem_of_In, Hin.
Qed.

(** The record of a whole run, phase by phase. *)
Lemma run_record (st st' : State) (r : result unit) :
  SandboxProxy_run amb registry task st = (r, st') ->
  exists evs1 evs2 evs3,
    trace st' = (trace st ++ evs1 ++ evs2 ++ evs3)%list
    /\ Forall setup_event evs1 /\ Forall running_event evs2 /\ Forall finish_event evs3
    /\ (forall c code,
          In (EvPopen c (Ok code)) evs2 ->
          exists s st2,
            _sandbox_inst st2 = Some s
            /\ trace st2 = (trace st ++ evs1 ++ evs2)%list
            /\ match exit_outcome s code with
               | Ok _ =>
                   exists info_out,
                     run_finish task info_out st2 = (r, st')
                     /\ forall info, info_out = Some info -> staged_under_stage_dir info
               | Raise e => r = Raise e /\ st' = st2 /\ evs3 = []
               end).
Proof.
  rewrite run_phases. intros Hrun.
  pose proof (emits_run_setup st) as (evs1 & Htr1 & Hev1).
  destruct (run_setup amb registry task st) as [[[info_out command] | e] st1] eqn:Hsetup;
    cbn [snd] in Htr1.
  - destruct (run_command amb registry task command st1) as [[[] | e] st2] eqn:Hcmd;
      destruct (run_command_outcome _ _ _ _ Hcmd) as (evs2 & Htr2 & Hev2 & Hout).
    + pose proof (emits_run_finish info_out st2) as (evs3 & Htr3 & Hev3).
      rewrite Hrun in Htr3. cbn [snd] in Htr3.
      exists evs1, evs2, evs3. rewrite Htr3, Htr2, Htr1, <- !app_assoc.
      repeat split; try assumption.
      intros c code Hin. destruct (Hout c code Hin) as (_ & s & Hinst & Hr).
      exists s, st2. rewrite Htr2, Htr1, <- app_assoc. repeat split; try assumption.
      rewrite <- Hr. exists info_out. split; [exact Hrun |].
      intros info ->. eapply run_setup_info, Hsetup.
    + injection Hrun as <- <-.
      exists evs1, evs2, []. rewrite Htr2, Htr1, app_nil_r, <- !app_assoc.
      repeat split; try assumption; [constructor |].
      intros c code Hin. destruct (Hout c code Hin) as (_ & s & Hinst & Hr).
      exists s, st2. rewrite Htr2, Htr1, <- app_assoc. repeat split; try assumption.
      now rewrite <- Hr.
  - injection Hrun as <- <-. exists evs1, [], [].
    rewrite Htr1, !app_nil_r. repeat split; try assumption; try constructor.
    intros c code [].
Qed.

Lemma popen_in_run (evs1 evs2 evs3 : list event) (c : string) (rp : result Z) :
  Forall setup_event evs1 -> Forall finish_event evs3 ->
  In (EvPopen c rp) (evs1 ++ evs2 ++ evs3) -> In (EvPopen c rp) evs2.
Proof.
  intros H1 H3 Hin. apply in_app_or in Hin as [Hin | Hin].
  - exfalso. revert Hin. now apply (Forall_not_In setup_event).
  - apply in_app_or in Hin as [Hin | Hin]; [assumption |].
    exfalso. revert Hin. now apply (Forall_not_In finish_event).
Qed.

(** C2: a run whose subprocess exits with a non-zero code raises the
    exception whose message carries the sandbox key and that code (the
    code can be read back from it), and its record holds no stage-out
    copy, no stage-out warning and no call of the [after_run] hook. *)
Theorem run_failure_skips_stageout (st st' : State) (r : result unit)
    (evs : list event) (command : string) (code : Z) :
  SandboxProxy_run amb registry task st = (r, st') ->
  trace st' = (trace st ++ evs)%list ->
  In (EvPopen command (Ok code)) evs ->
  code <> 0%Z ->
  (exists s, _sandbox_inst st' = Some s
             /\ r = Raise (Exception (run_failure_message (key s) code))
             /\ forall code', r = Raise (Exception (run_failure_message (key s) code')) ->
                              code' = code)
  /\ Forall (fun ev => ~ finish_event ev) evs.
Proof.
  intros Hrun Htr Hin Hcode.
  destruct (run_record _ _ _ Hrun) as (evs1 & evs2 & evs3 & Htr' & H1 & H2 & H3 & Hout).
  rewrite Htr' in Htr. apply app_inv_head in Htr. subst evs.
  apply popen_in_run in Hin; try assumption.
  destruct (Hout _ _ Hin) as (s & st2 & Hinst & _ & Hr).
  unfold exit_outcome in Hr. rewrite (proj2 (Z.eqb_neq code 0) Hcode) in Hr.
  destruct Hr as (-> & -> & ->). split.
  - exists s. repeat split; [assumption |].
    intros code' E. apply (run_failure_message_inj (key s)). congruence.
  - rewrite app_nil_r. apply Forall_app. split.
    + eapply Forall_impl; [exact H1 |]. now intros [].
    + eapply Forall_impl; [exact H2 |]. now intros [].
Qed.

End Run.

(** ** Lockstep traversal of a structure and its staged copy *)

(** Induction on structures that reaches into mappings and sequences. *)
Lemma Struct_induction (P : Struct -> Prop) :
  (forall t, P (Leaf t)) ->
  (forall items, Forall (fun kv => P kv.2) items -> P (Mapping items)) ->
  (forall items, Forall P items -> P (Sequence items)) ->
  (forall c, P c -> P (Collection c)) ->
  forall s, P s.
Proof.
  intros HL HM HS HC. fix IH 1. intros [t | items | items | c].
  - apply HL.
  - apply HM. induction items as [| [k v] items IHitems]; constructor; [apply IH | assumption].
  - apply HS. induction items as [| v items IHitems]; constructor; [apply IH | assumption].
  - apply HC, IH.
Qed.

Lemma flatten_Mapping (items : list (string * Struct)) :
  flatten (Mapping items) = flat_map flatten (map snd items).
Proof.
  induction items as [| [k v] items IH]; [reflexivity |].
  cbn in *. now rewrite IH.
Qed.

Lemma flatten_Sequence (items : list Struct) :
  flatten (Sequence items) = flat_map flatten items.
Proof.
  induction items as [| v items IH]; [reflexivity |].
  cbn in *. now rewrite IH.
Qed.

Lemma leaves_Mapping (items : list (string * Struct)) :
  leaves (Mapping items) = flat_map leaves (map snd items).
Proof.
  induction items as [| [k v] items IH]; [reflexivity |].
  cbn in *. now rewrite IH.
Qed.

Lemma leaves_Sequence (items : list Struct) :
  leaves (Sequence items) = flat_map leaves items.
Proof.
  induction items as [| v items IH]; [reflexivity |].
  cbn in *. now rewrite IH.
Qed.

Lemma map_struct_Mapping (f : Target -> Target) (items : list (string * Struct)) :
  exists items',
    map_struct f (Mapping items) = Mapping items'
    /\ map snd items' = map (map_struct f) (map snd items).
Proof.
  induction items as [| [k v] items (items' & Hm & Hs)].
  - now exists [].
  - exists ((k, map_struct f v) :: items'). cbn in *.
    injection Hm as <-. split; [reflexivity | now rewrite Hs].
Qed.

Lemma map_struct_Sequence (f : Target -> Target) (items : list Struct) :
  map_struct f (Sequence items) = Sequence (map (map_struct f) items).
Proof.
  cbn. f_equal.
Qed.

Lemma Forall_values (P : Struct -> Prop) (items : list (string * Struct)) :
  Forall (fun kv => P kv.2) items -> Forall P (map snd items).
Proof. induction 1; constructor; assumption. Qed.


Section Lockstep.
Context `{Collaborators}.

(** A queue loop in the shape of the two loops of [base.py]: [act] on a
    pair of leaves, members spliced in for a pair of collections. *)
Variable loop : list Item -> list Item -> M unit.
Variable act : Target -> Target -> M unit.
Hypothesis loop_nil : forall q st, loop [] q st = (Ok tt, st).
Hypothesis loop_leaf : forall t t' rest rest' st,
  loop (ITarget t :: rest) (ITarget t' :: rest') st = bind (act t t') (fun _ => loop rest rest') st.
Hypothesis loop_collection : forall c c' rest rest' st,
  loop (ICollection c :: rest) (ICollection c' :: rest') st
  = loop (flatten c ++ rest) (flatten c' ++ rest') st.

Variable f : Target -> Target.

(** [act] on each leaf and its image, in order. *)
Fixpoint each_leaf (ls : list Target) : M unit :=
  match ls with
  | [] => ret tt
  | t :: ls' => bind (act t (f t)) (fun _ => each_leaf ls')
  end.

Lemma bind_ext {A B} (m : M A) (k1 k2 : A -> M B) (st : State) :
  (forall a st', k1 a st' = k2 a st') -> bind m k1 st = bind m k2 st.
Proof.
  intros Hk. unfold bind. destruct (m st) as [[a | e] st1]; [apply Hk | reflexivity].
Qed.

Lemma bind_assoc {A B C} (m : M A) (k1 : A -> M B) (k2 : B -> M C) (st : State) :
  bind (bind m k1) k2 st = bind m (fun a => bind (k1 a) k2) st.
Proof. unfold bind. destruct (m st) as [[a | e] st1]; reflexivity. Qed.

Lemma each_leaf_app (l1 l2 : list Target) (k : M unit) (st : State) :
  bind (each_leaf (l1 ++ l2)) (fun _ => k) st
  = bind (each_leaf l1) (fun _ => bind (each_leaf l2) (fun _ => k)) st.
Proof.
  revert st. induction l1 as [| t l1 IH]; intros st; [reflexivity |].
  cbn [app each_leaf]. rewrite !bind_assoc. apply bind_ext. intros _ st'. apply IH.
Qed.

Definition lockstep (s : Struct) : Prop :=
  forall rest rest' st,
    loop (flatten s ++ rest) (flatten (map_struct f s) ++ rest') st
    = bind (each_leaf (leaves s)) (fun _ => loop rest rest') st.

Lemma lockstep_list (items : list Struct) :
  Forall lockstep items ->
  forall rest rest' st,
    loop (flat_map flatten items ++ rest)
         (flat_map flatten (map (map_struct f) items) ++ rest') st
    = bind (each_leaf (flat_map leaves items)) (fun _ => loop rest rest') st.
Proof.
  induction 1 as [| v items Hv _ IH]; intros rest rest' st; [reflexivity |].
  cbn [flat_map map]. rewrite <- !app_assoc, Hv, each_leaf_app.
  apply bind_ext. intros _ st'. apply IH.
Qed.

(** The loop over a structure and its staged copy acts once on every
    leaf of the structure, collections expanded, then goes on with the
    rest of the queue. *)
Lemma lockstep_struct (s : Struct) : lockstep s.
Proof.
  induction s as [t | items IH | items IH | c IH] using Struct_induction;
    intros rest rest' st.
  - cbn [flatten map_struct leaves app each_leaf]. rewrite loop_leaf.
    unfold bind. destruct (act t (f t) st) as [[[] | e] st1]; reflexivity.
  - destruct (map_struct_Mapping f items) as (items' & -> & Hs).
    rewrite !flatten_Mapping, leaves_Mapping, Hs.
    now apply lockstep_list, Forall_values.
  - rewrite map_struct_Sequence, !flatten_Sequence, leaves_Sequence.
    now apply lockstep_list.
  - cbn [flatten map_struct leaves app]. rewrite loop_collection. apply IH.
Qed.

Lemma lockstep_whole (s : Struct) (st : State) :
  loop (flatten s) (flatten (map_struct f s)) st = each_leaf (leaves s) st.
Proof.
  pose proof (lockstep_struct s [] [] st) as Hl. rewrite !app_nil_r in Hl.
  rewrite Hl. unfold bind.
  destruct (each_leaf (leaves s) st) as [[[] | e] st1]; [apply loop_nil | reflexivity].
Qed.

End Lockstep.

(** ** Stage-in and stage-out over a structure *)

Section Staging.
Context `{Collaborators}.

(** What the stage-in loop does for one pair of leaves. *)
Definition copy_in (sandbox_input staged_input : Target) : M unit :=
  emit (EvCopyToLocal sandbox_input staged_input) >>
  call (copy_to_local sandbox_input staged_input).

(** What the stage-out loop does for one pair of leaves. *)
Definition copy_out (sandbox_output staged_output : Target) : M unit :=
  let* present := gets (fun st => target_exists staged_output (world st)) in
  if present then
    emit (EvCopyFromLocal sandbox_output staged_output) >>
    call (copy_from_local sandbox_output staged_output)
  else
    emit (EvWarning ("could not find output target at " +:+ path staged_output
                     +:+ " for stage-out")).

Lemma stagein_loop_leaves (stage_dir : string) (s : Struct) (st : State) :
  stagein_loop (flatten s) (flatten (create_staged_target_struct stage_dir s)) st
  = each_leaf copy_in (create_staged_target stage_dir) (leaves s) st.
Proof.
  apply lockstep_whole.
  - intros q st0. now rewrite stagein_loop_equation_1.
  - intros t t' rest rest' st0. rewrite stagein_loop_equation_3.
    unfold copy_in. now rewrite bind_assoc.
  - intros c c' rest rest' st0. now rewrite stagein_loop_equation_6.
Qed.

Lemma stageout_loop_leaves (stage_dir : string) (s : Struct) (st : State) :
  stageout_loop (flatten s) (flatten (create_staged_target_struct stage_dir s)) st
  = each_leaf copy_out (create_staged_target stage_dir) (leaves s) st.
Proof.
  apply lockstep_whole.
  - intros q st0. now rewrite stageout_loop_equation_1.
  - intros t t' rest rest' st0. now rewrite stageout_loop_equation_3.
  - intros c c' rest rest' st0. now rewrite stageout_loop_equation_6.
Qed.

Lemma copy_in_run (t t' : Target) (st : State) :
  copy_in t t' st
  = ((copy_to_local t t' (world st)).1,
     set_world (copy_to_local t t' (world st)).2 (log (EvCopyToLocal t t') st)).
Proof.
  unfold copy_in, bind, emit, call. cbn [log world].
  now destruct (copy_to_local t t' (world st)).
Qed.

(** Stage-in of the leaves [ls], staged by [f], from the world [w]: every
    copy returns, each in the world that the copies before it left. *)
Fixpoint copies_return (f : Target -> Target) (ls : list Target) (w : World) : Prop :=
  match ls with
  | [] => True
  | t :: ls' =>
      (copy_to_local t (f t) w).1 = Ok tt
      /\ copies_return f ls' (copy_to_local t (f t) w).2
  end.

(** The world after the copies of [ls]. *)
Fixpoint copies_world (f : Target -> Target) (ls : list Target) (w : World) : World :=
  match ls with
  | [] => w
  | t :: ls' => copies_world f ls' (copy_to_local t (f t) w).2
  end.

(** The copies on record for the leaves [ls]. *)
Definition copies_in (f : Target -> Target) (ls : list Target) : list event :=
  map (fun t => EvCopyToLocal t (f t)) ls.




(** Stage-out of the leaves [ls], staged by [f], from the world [w]: every
    copy that is made returns; a copy is made for a leaf whose staged file
    exists in the world that the leaves before it left. *)
Fixpoint copies_back_return (f : Target -> Target) (ls : list Target) (w : World) : Prop :=
  match ls with
  | [] => True
  | t :: ls' =>
      if target_exists (f t) w
      then (copy_from_local t (f t) w).1 = Ok tt
           /\ copies_back_return f ls' (copy_from_local t (f t) w).2
      else copies_back_return f ls' w
  end.

(** What stage-out of [ls] from the world [w] puts on record: for each
    leaf the copy back when its staged file exists, the warning when it
    does not. *)
Fixpoint stage_out_record (f : Target -> Target) (ls : list Target) (w : World) : list event :=
  match ls with
  | [] => []
  | t :: ls' =>
      if target_exists (f t) w
      then EvCopyFromLocal t (f t) :: stage_out_record f ls' (copy_from_local t (f t) w).2
      else EvWarning ("could not find output target at " +:+ path (f t)
                      +:+ " for stage-out") :: stage_out_record f ls' w
  end.

(** The world after stage-out of [ls]. *)
Fixpoint stage_out_world (f : Target -> Target) (ls : list Target) (w : World) : World :=
  match ls with
  | [] => w
  | t :: ls' =>
      if target_exists (f t) w
      then stage_out_world f ls' (copy_from_local t (f t) w).2
      else stage_out_world f ls' w
  end.

Lemma copy_out_run (t t' : Target) (st : State) :
  copy_out t t' st
  = if target_exists t' (world st)
    then ((copy_from_local t t' (world st)).1,
          set_world (copy_from_local t t' (world st)).2 (log (EvCopyFromLocal t t') st))
    else (Ok tt, log (EvWarning ("could not find output target at " +:+ path t'
                                 +:+ " for stage-out")) st).
Proof.
  unfold copy_out, bind, gets, emit, call.
  destruct (target_exists t' (world st)); [| reflexivity].
  cbn [log world]. now destruct (copy_from_local t t' (world st)).
Qed.

(** Stage-out of the leaves returns exactly when every copy it makes
    returns, and then its record and the world are the ones above. *)
Lemma copy_out_leaves_outcome (f : Target -> Target) (ls : list Target) (st : State) :
  (copies_back_return f ls (world st) ->
   (each_leaf copy_out f ls st).1 = Ok tt
   /\ trace (each_leaf copy_out f ls st).2
      = (trace st ++ stage_out_record f ls (world st))%list
   /\ world (each_leaf copy_out f ls st).2 = stage_out_world f ls (world st))
  /\ ((each_leaf copy_out f ls st).1 = Ok tt -> copies_back_return f ls (world st)).
Proof.
  revert st. induction ls as [| t ls IH]; intros st.
  - cbn. rewrite app_nil_r. auto.
  - cbn [each_leaf copies_back_return stage_out_record stage_out_world].
    pose proof (copy_out_run t (f t) st) as Hout.
    destruct (target_exists (f t) (world st)).
    + destruct (copy_from_local t (f t) (world st)) as [[[] | e] w]; cbn [fst snd] in *.
      * rewrite (bind_Ok _ _ _ _ _ Hout).
        destruct (IH (set_world w (log (EvCopyFromLocal t (f t)) st))) as [IH1 IH2].
        cbn [set_world log world trace] in IH1, IH2. split.
        -- intros [_ Hrest]. destruct (IH1 Hrest) as (Hr & Htr & Hw).
           split; [exact Hr |]. split; [| exact Hw].
           rewrite Htr, <- app_assoc. reflexivity.
        -- intros Hr. split; [reflexivity | now apply IH2].
      * rewrite (bind_Raise _ _ _ _ _ Hout). split; [intros [[=] _] | intros [=]].
    + rewrite (bind_Ok _ _ _ _ _ Hout).
      match type of Hout with _ = (_, ?st1) => destruct (IH st1) as [IH1 IH2] end.
      cbn [log world trace] in IH1, IH2. split.
      * intros Hrest. destruct (IH1 Hrest) as (Hr & Htr & Hw).
        split; [exact Hr |]. split; [| exact Hw].
        rewrite Htr, <- app_assoc. reflexivity.
      * exact IH2.
Qed.

End Staging.

(** ** Stage-out at the end of a run *)

Section Finish.
Context `{Collaborators}.
Variable amb : Ambient.
Variable registry : list SandboxClass.
Variable task : Task.

(** Stage-out of one leaf whose staged copy exists. *)
Lemma copy_out_present (t t' : Target) (st : State) (w : World) :
  target_exists t' (world st) = true ->
  copy_from_local t t' (world st) = (Ok tt, w) ->
  copy_out t t' st = (Ok tt, set_world w (log (EvCopyFromLocal t t') st)).
Proof.
  intros Hex Hcopy. unfold copy_out, bind, gets, emit, call. rewrite Hex.
  cbn [log world]. now rewrite Hcopy.
Qed.

(** Stage-out of one leaf whose staged copy is absent. *)
Lemma copy_out_absent (t t' : Target) (st : State) :
  target_exists t' (world st) = false ->
  copy_out t t' st
  = (Ok tt, log (EvWarning ("could not find output target at " +:+ path t'
                            +:+ " for stage-out")) st).
Proof.
  intros Hex. unfold copy_out, bind, gets, emit. now rewrite Hex.
Qed.

(** The end of a run once the subprocess has succeeded. *)
Lemma run_finish_after (info_out : option StageInfo) (st st3 : State) :
  match info_out with
  | Some info => stageout info st = (Ok tt, st3)
  | None => st3 = st
  end ->
  run_finish task info_out st =
  match sandbox_after_run task with
  | Some hook =>
      match hook (world st3) with
      | (r, w) => (r, set_world w (log EvAfterRun st3))
      end
  | None => (Ok tt, st3)
  end.
Proof.
  intros Hso. unfold run_finish.
  assert (Hfirst : match info_out with Some info => stageout info | None => ret tt end st
                   = (Ok tt, st3)).
  { destruct info_out; [exact Hso | now subst]. }
  erewrite bind_Ok by exact Hfirst.
  destruct (sandbox_after_run task) as [hook |]; [| reflexivity].
  unfold bind, emit, call. cbn [log world]. reflexivity.
Qed.

End Finish.

Section BestEffort.
Context `{Collaborators}.
Variable amb : Ambient.
Variable registry : list SandboxClass.
Variable task : Task.

Definition missing_output (staged_output : Target) : event :=
  EvWarning ("could not find output target at " +:+ path staged_output
             +:+ " for stage-out").

(** The [after_run] hook, if there is one, returns normally in [w]. *)
Definition after_run_returns (w : World) : Prop :=
  match sandbox_after_run task with
  | Some hook => (hook w).1 = Ok tt
  | None => True
  end.

Definition after_run_events : list event :=
  match sandbox_after_run task with
  | Some _ => [EvAfterRun]
  | None => []
  end.

Lemma run_finish_returns (info_out : option StageInfo) (st st3 : State) :
  match info_out with
  | Some info => stageout info st = (Ok tt, st3)
  | None => st3 = st
  end ->
  after_run_returns (world st3) ->
  exists st', run_finish task info_out st = (Ok tt, st')
              /\ trace st' = (trace st3 ++ after_run_events)%list.
Proof.
  intros Hso Hhook. rewrite (run_finish_after _ _ _ _ Hso).
  unfold after_run_returns, after_run_events in *.
  destruct (sandbox_after_run task) as [hook |].
  - destruct (hook (world st3)) as [r w]. cbn [fst] in Hhook. subst r.
    eexists. split; reflexivity.
  - exists st3. now rewrite app_nil_r.
Qed.

(** C6: a run that prepared stage-out for two output leaves and whose
    subprocess succeeded completes normally when one of the two staged
    leaves is absent: the present leaf is copied back to its original
    target and exactly one warning, for the absent leaf, is recorded. *)
Theorem stageout_best_effort (st st1 st2 : State) (info : StageInfo)
    (command : string) (a b : Target) :
  run_setup amb registry task st = (Ok (Some info, command), st1) ->
  run_command amb registry task command st1 = (Ok tt, st2) ->
  leaves (targets info) = [a; b] ->
  let sa := create_staged_target (stage_dir info) a in
  let sb := create_staged_target (stage_dir info) b in
  (forall w,
      target_exists sa (world st2) = true ->
      copy_from_local a sa (world st2) = (Ok tt, w) ->
      target_exists sb w = false ->
      after_run_returns w ->
      exists st',
        SandboxProxy_run amb registry task st = (Ok tt, st')
        /\ trace st' = (trace st2 ++ [EvCopyFromLocal a sa; missing_output sb]
                        ++ after_run_events)%list)
  /\ (forall w,
        target_exists sa (world st2) = false ->
        target_exists sb (world st2) = true ->
        copy_from_local b sb (world st2) = (Ok tt, w) ->
        after_run_returns w ->
        exists st',
          SandboxProxy_run amb registry task st = (Ok tt, st')
          /\ trace st' = (trace st2 ++ [missing_output sa; EvCopyFromLocal b sb]
                          ++ after_run_events)%list).
Proof.
  intros Hsetup Hcmd Hleaves sa sb.
  pose proof (run_setup_info _ _ _ _ _ _ _ Hsetup) as Hinfo.
  assert (Hso : forall st0, stageout info st0
                = bind (copy_out a sa) (fun _ => bind (copy_out b sb) (fun _ => ret tt)) st0).
  { intros st0. unfold stageout. rewrite Hinfo, stageout_loop_leaves, Hleaves. reflexivity. }
  split; intros w.
  - intros Ha Hcopy Hb Hhook.
    destruct (run_finish_returns (Some info) st2
                (log (missing_output sb) (set_world w (log (EvCopyFromLocal a sa) st2))))
      as (st' & Hfin & Htr).
    + rewrite Hso. erewrite bind_Ok by (eapply copy_out_present; cbn; eassumption).
      erewrite bind_Ok by (apply copy_out_absent; cbn; assumption). reflexivity.
    + exact Hhook.
    + exists st'. rewrite run_phases, Hsetup, Hcmd. split; [exact Hfin |].
      rewrite Htr. cbn [log set_world trace]. now rewrite <- !app_assoc.
  - intros Ha Hb Hcopy Hhook.
    destruct (run_finish_returns (Some info) st2
                (set_world w (log (EvCopyFromLocal b sb) (log (missing_output sa) st2))))
      as (st' & Hfin & Htr).
    + rewrite Hso. erewrite bind_Ok by (apply copy_out_absent; cbn; assumption).
      erewrite bind_Ok by (eapply copy_out_present; cbn; eassumption). reflexivity.
    + exact Hhook.
    + exists st'. rewrite run_phases, Hsetup, Hcmd. split; [exact Hfin |].
      rewrite Htr. cbn [log set_world trace]. now rewrite <- !app_assoc.
Qed.

End BestEffort.

Section AfterRun.
Context `{Collaborators}.
Variable amb : Ambient.
Variable registry : list SandboxClass.
Variable task : Task.





End AfterRun.

(** ** Staged targets *)

(** [os.path.basename] *)
Fixpoint basename (p : string) : string :=
  match p with
  | EmptyString => EmptyString
  | String c p' =>
      if Str.contains "/" p' then basename p'
      else if Ascii.eqb c "/" then p' else p
  end.






(** ** Resolution of the sandbox of a task *)

Section Controller.
Context `{Collaborators}.
Variable amb : Ambient.
Variable registry : list SandboxClass.
Variable task : Task.

Lemma key_instantiate (c : SandboxClass) (_type name : string) (arg : TaskArg)
    (s : Sandbox) :
  instantiate c _type name arg = Ok s ->
  s = Sandbox_object c _type name /\ key s = join_key _type name.
Proof.
  unfold instantiate, Sandbox_init. destruct (cls_raises c); [discriminate |].
  destruct arg; try discriminate; intros [= <-]; now destruct c.
Qed.

(** The key of the instance that [Sandbox.new] returns is the key given. *)
Lemma Sandbox_new_key (k : string) (s : Sandbox) :
  Sandbox_new registry k = Ok s -> key s = k.
Proof.
  unfold Sandbox_new, Sandbox_new_for. destruct (check_key k false); [| discriminate].
  destruct (split_key k) as [[t n] | e] eqn:Hsplit; [| discriminate].
  destruct (find_class t registry); [| discriminate].
  intros Hi. apply key_instantiate in Hi as [_ ->]. now apply join_split_key.
Qed.

Lemma Sandbox_new_not_empty (k : string) (s : Sandbox) :
  Sandbox_new registry k = Ok s -> String.eqb k NO_STR = false.
Proof.
  intros Hnew. destruct (String.eqb_spec k NO_STR) as [-> |]; [| reflexivity].
  unfold Sandbox_new, Sandbox_new_for in Hnew. vm_compute in Hnew. discriminate Hnew.
Qed.

(** The task runs inside the active sandbox [k], which is the designation
    that resolution arrives at: the first ambient key once switched, the
    accepted or hard-coded designation of the task otherwise. *)
Definition inside_matching_sandbox (k : string) : Prop :=
  k ∈ _current_sandbox amb
  /\ if _sandbox_switched amb then exists rest, _current_sandbox amb = k :: rest
     else (sandbox task = ParamValue k /\ multi_match k (valid_sandboxes task) = true)
          \/ sandbox task = HardCoded (Some k).

(** C9: when the task runs inside an active sandbox that matches its
    designation, and that designation names a registered backend,
    resolution returns normally with no sandbox instance and no proxy on
    the task, and [is_sandboxed] then reports the direct case. *)
Theorem no_nesting_inside_matching_sandbox (k : string) (force : bool) (st : State) :
  inside_matching_sandbox k ->
  is_ok (Sandbox_new registry k) = true ->
  _sandbox_initialized st = false \/ force = true ->
  let st' := set_task_fields true (Some k) None None st in
  _initialize_sandbox amb registry task force st = (Ok tt, st')
  /\ _sandbox_inst st' = None /\ _sandbox_proxy st' = None
  /\ is_sandboxed amb registry task st' = (Ok true, st').
Proof.
  intros [Hactive Hmatch] Hnew Hrun st'.
  destruct (Sandbox_new registry k) as [s |] eqn:Hs; [clear Hnew | discriminate Hnew].
  pose proof (Sandbox_new_key _ _ Hs) as Hkey.
  pose proof (Sandbox_new_not_empty _ _ Hs) as Hne.
  assert (Hguard : _sandbox_initialized st && negb force = false).
  { destruct Hrun as [-> | ->]; [reflexivity | apply andb_false_r]. }
  assert (Hinit : _initialize_sandbox amb registry task force st = (Ok tt, st')).
  { unfold _initialize_sandbox, bind at 1, gets at 1. rewrite Hguard.
    unfold bind at 1, modify at 1.
    assert (Heff : forall st0,
               (if _sandbox_switched amb then
                  match _current_sandbox amb with
                  | first :: _ => set_effective_sandbox (Some first)
                  | [] => raise (IndexError "list index out of range")
                  end
                else
                  match sandbox task with
                  | ParamValue value =>
                      if multi_match value (valid_sandboxes task)
                      then set_effective_sandbox (Some value)
                      else set_effective_sandbox (fallback_sandbox task value)
                  | HardCoded value => set_effective_sandbox value
                  end) st0
               = set_effective_sandbox (Some k) st0).
    { intros st0. destruct (_sandbox_switched amb).
      - destruct Hmatch as [rest ->]. reflexivity.
      - destruct Hmatch as [[-> ->] | ->]; reflexivity. }
    erewrite bind_Ok by (rewrite Heff; reflexivity).
    unfold bind at 1, gets at 1. cbn [set_task_fields _effective_sandbox is_empty_sandbox].
    rewrite Hne.
    erewrite (bind_Ok (ret tt)) by reflexivity.
    unfold bind at 1, gets at 1. cbn [set_task_fields _effective_sandbox]. rewrite Hne.
    unfold bind, lift. rewrite Hs. unfold is_active. rewrite Hkey.
    rewrite bool_decide_eq_true_2 by exact Hactive. reflexivity. }
  repeat split; try assumption.
  unfold is_sandboxed, effective_sandbox.
  erewrite bind_Ok by (erewrite bind_Ok by (now apply initialize_sandbox_noop); reflexivity).
  cbn [set_task_fields _effective_sandbox].
  rewrite bool_decide_eq_false_2.
  - now erewrite bind_Ok by (now apply sandbox_inst_noop).
  - intros [= ->]. now rewrite String.eqb_refl in Hne.
Qed.

(** The sandbox instance and the proxy held by the task are the same in
    both states. *)
Definition keeps_objects (st st' : State) : Prop :=
  _sandbox_inst st' = _sandbox_inst st /\ _sandbox_proxy st' = _sandbox_proxy st.

#[local] Instance keeps_objects_refl : Reflexive keeps_objects.
Proof. intros st. split; reflexivity. Qed.

#[local] Instance keeps_objects_trans : Transitive keeps_objects.
Proof. intros a b c [H1 H2] [H1' H2']. split; congruence. Qed.

(** A resolved task holds a proxy exactly when it holds a sandbox
    instance, and none when its effective sandbox is the empty
    designation. *)
Definition resolved_consistently (st : State) : Prop :=
  (_sandbox_inst st = None <-> _sandbox_proxy st = None)
  /\ (_effective_sandbox st = Some NO_STR -> _sandbox_inst st = None).

Lemma initialize_sandbox_consistent (force : bool) (st st' : State) :
  (_sandbox_initialized st = true -> resolved_consistently st) ->
  _initialize_sandbox amb registry task force st = (Ok tt, st') ->
  resolved_consistently st'.
Proof.
  intros Hcons. unfold _initialize_sandbox, bind at 1, gets at 1.
  destruct (_sandbox_initialized st && negb force) eqn:Hguard.
  { intros [= <-]. apply Hcons. apply andb_true_iff in Hguard. tauto. }
  intros Hrun.
  apply bind_inv_Ok in Hrun as ([] & st1 & [= <-] & Hrun).
  apply bind_inv_Ok in Hrun as ([] & st2 & Heff & Hrun).
  apply bind_inv_Ok in Hrun as (effective & st2' & [= <- <-] & Hrun).
  apply bind_inv_Ok in Hrun as ([] & st3 & Hcheck & Hrun).
  apply bind_inv_Ok in Hrun as (effective' & st3' & [= <- <-] & Hrun).
  assert (H2 : keeps_objects (set_task_fields true None None None st) st2).
  { match type of Heff with ?m _ = _ => assert (Hs : steps keeps_objects m) end.
    { unfold set_effective_sandbox. repeat steps_step ltac:(split; reflexivity). }
    specialize (Hs (set_task_fields true None None None st)). now rewrite Heff in Hs. }
  assert (H3 : keeps_objects st2 st3).
  { match type of Hcheck with ?m _ = _ => assert (Hs : steps keeps_objects m) end.
    { unfold set_effective_sandbox. repeat steps_step ltac:(split; reflexivity). }
    specialize (Hs st2). now rewrite Hcheck in Hs. }
  destruct (transitivity H2 H3) as [Hinst Hproxy]. cbn in Hinst, Hproxy.
  assert (Hdirect : resolved_consistently st3).
  { unfold resolved_consistently. rewrite Hinst, Hproxy. tauto. }
  destruct (_effective_sandbox st3) as [e |] eqn:He; [| now injection Hrun as <-].
  destruct (String.eqb_spec e NO_STR) as [-> | Hne]; [now injection Hrun as <- |].
  apply bind_inv_Ok in Hrun as (s & st4 & [= _ <-] & Hrun).
  destruct (negb (is_active amb s)); [| now injection Hrun as <-].
  injection Hrun as <-. unfold resolved_consistently. cbn. rewrite He.
  split; [split; discriminate | intros [= ->]; now destruct Hne].
Qed.

(** C10: [is_sandboxed] returns [True] exactly when the effective sandbox
    is the empty designation or the task holds no sandbox instance, which
    for a consistently resolved task is exactly when no proxy wraps it;
    [env] is then the environment of the process, and the cached
    environment of the sandbox instance otherwise. *)
Theorem is_sandboxed_iff_direct (st st' : State) (direct : bool) :
  (_sandbox_initialized st = true -> resolved_consistently st) ->
  is_sandboxed amb registry task st = (Ok direct, st') ->
  (direct = true <-> _effective_sandbox st' = Some NO_STR \/ _sandbox_inst st' = None)
  /\ (direct = true <-> _sandbox_proxy st' = None)
  /\ (direct = true -> SandboxTask_env amb registry task st = (Ok os_environ, st'))
  /\ (direct = false ->
      exists s, _sandbox_inst st' = Some s
                /\ SandboxTask_env amb registry task st = Sandbox_env s st').
Proof.
  intros Hcons Hdirect. pose proof Hdirect as Hrun.
  unfold is_sandboxed, effective_sandbox in Hrun.
  apply bind_inv_Ok in Hrun as (effective & st1 & Heff & Hrun).
  apply bind_inv_Ok in Heff as ([] & st1' & Hinit & [= <- <-]).
  pose proof (initialize_sandbox_consistent _ _ _ Hcons Hinit) as [Hobj Hempty].
  pose proof (initialize_sandbox_initialized amb registry task false st) as Hdone.
  rewrite Hinit in Hdone. cbn [snd] in Hdone.
  assert (Henv : forall s,
             _sandbox_inst st1' = Some s -> direct = false -> st' = st1' ->
             SandboxTask_env amb registry task st = Sandbox_env s st').
  { intros s Hs -> ->. unfold SandboxTask_env. erewrite bind_Ok by exact Hdirect.
    cbv beta iota.
    erewrite bind_Ok by (now apply sandbox_inst_noop). now rewrite Hs. }
  assert (Hos : direct = true -> st' = st1' ->
                SandboxTask_env amb registry task st = (Ok os_environ, st')).
  { intros -> ->. unfold SandboxTask_env. now erewrite bind_Ok by exact Hdirect. }
  case_bool_decide as Hno.
  - injection Hrun as <- <-. specialize (Hempty Hno).
    split; [tauto |]. split; [split; [intros _; now apply Hobj | reflexivity] |].
    split; [intros _; now apply Hos | discriminate].
  - apply bind_inv_Ok in Hrun as (inst & st2 & Hi & Hrun).
    rewrite (sandbox_inst_noop _ _ _ _ Hdone) in Hi.
    injection Hi as <- <-. injection Hrun as <- <-.
    destruct (_sandbox_inst st1') as [s |] eqn:Hs.
    + rewrite bool_decide_eq_true_2 in * by eauto. cbn [negb] in *.
      split; [split; [discriminate | intros [? | ?]; [contradiction | discriminate]] |].
      split; [split; [discriminate | intros Hp; apply Hobj in Hp; discriminate] |].
      split; [discriminate |]. intros _. exists s. split; [reflexivity |].
      now apply Henv.
    + rewrite bool_decide_eq_false_2 in * by (intros [? ?]; discriminate). cbn [negb] in *.
      split; [tauto |]. split; [split; [intros _; now apply Hobj | reflexivity] |].
      split; [intros _; now apply Hos | discriminate].
Qed.

End Controller.

(** * A concrete setting

    One storage layer, two backends and one task, on which the statements
    above are exercised. *)
Module Demo.

(** The outside world: the files that exist, the exit code the next
    subprocess will return and the files it will leave behind. *)
Record DemoWorld : Type := mkWorld {
  files : list string;
  next_exit : Z;
  will_produce : list string;
}.

(** The path of a directory, written with or without a slash at its
    end. *)
Fixpoint without_trailing_slash (p : string) : string :=
  match p with
  | EmptyString => EmptyString
  | String c p' =>
      match p' with
      | EmptyString => if Ascii.eqb c "/" then EmptyString else p
      | _ => String c (without_trailing_slash p')
      end
  end.

Definition add_file (p : string) (w : DemoWorld) : DemoWorld :=
  {| files := p :: files w; next_exit := next_exit w; will_produce := will_produce w |}.

Definition collaborators : Collaborators := {|
  World := DemoWorld;
  Mask := unit;
  target_exists t w := bool_decide (path t ∈ files w);
  copy_to_local src dst w := (Ok tt, add_file (path dst) w);
  copy_from_local dst src w := (Ok tt, add_file (path dst) w);
  local_unique_basename p := p;
  local_directory_target value :=
    match value with
    | EmptyString => Raise (ValueError "no path given")
    | _ => Ok (without_trailing_slash value)
    end;
  new_tmp_dir w := (Ok "/tmp/law", w);
  touch d w := (Ok tt, w);
  os_environ := [("HOME", "/home/user")];
  interruptable_popen command e w :=
    (Ok (next_exit w),
     {| files := will_produce w ++ files w; next_exit := next_exit w; will_produce := [] |});
  cfg_has_section _ := false;
  cfg_get_expanded _ option := if String.eqb option "law_executable" then Some "law" else Some "stage";
  shlex_split s := [s];
  multi_match value patterns := bool_decide (value ∈ patterns) || bool_decide ("*" ∈ patterns);
  mask_struct _ s := Some s;
|}.

#[local] Existing Instance collaborators.

Definition docker : SandboxClass :=
  mkClass (Some "docker") [] None
          (fun name => name)
          (fun name w => (Ok [("IMAGE", name)], w))
          (fun name _ _ _ => Ok ("docker run " +:+ name)).

Definition bash : SandboxClass :=
  mkClass (Some "bash") [docker] None
          (fun name => name)
          (fun name w => (Ok [("SHELL", name)], w))
          (fun name _ _ _ => Ok ("bash " +:+ name)).

Definition registry : list SandboxClass := [bash].

Definition file (p ub : string) : Target :=
  {| path := p; unique_basename := ub; ttype := "f" |}.

(** A mapping of two keys: a flat collection of three leaves, and a leaf. *)
Definition inputs : Struct :=
  Mapping [("events", Collection (Sequence [Leaf (file "/data/1.root" "h1_1.root");
                                            Leaf (file "/data/2.root" "h2_2.root");
                                            Leaf (file "/data/3.root" "h3_3.root")]));
           ("config", Leaf (file "/data/cfg.json" "h4_cfg.json"))].


Definition outputs : Struct :=
  Sequence [Leaf (file "/store/hist.root" "h5_hist.root");
            Leaf (file "/store/log.txt" "h6_log.txt")].






Definition task (outs : Struct) : Task := {|
  task_id := "Histogram_1";
  task_repr := "Histogram(sandbox=docker::image)";
  sandbox := ParamValue "docker::image";
  allow_empty_sandbox := false;
  valid_sandboxes := ["*"];
  exclude_params_sandbox := ["sandbox"; "log_file"];
  fallback_sandbox _ := None;
  sandbox_stagein := Some tt;
  sandbox_stageout := Some tt;
  input _ := inputs;
  output _ := outs;
  sandbox_before_run := Some (fun w => (Ok tt, w));
  sandbox_after_run := Some (fun w => (Ok tt, w));
|}.

(** Outside of any sandbox. *)
Definition outside : Ambient :=
  {| _current_sandbox := [""]; _sandbox_switched := false;
     _sandbox_task_id := ""; _sandbox_worker_id := "";
     _sandbox_worker_first_task_id := ""; _sandbox_is_root_task := false;
     _sandbox_stagein_dir := ""; _sandbox_stageout_dir := "" |}.

(** Inside the sandbox [docker::image], as [load_ambient] reads it. *)
Definition inside_environ : Env :=
  [("LAW_SANDBOX", "docker::image"); ("LAW_SANDBOX_SWITCHED", "1");
   ("LAW_SANDBOX_TASK_ID", "Histogram_1"); ("LAW_SANDBOX_WORKER_ID", "w1");
   ("LAW_SANDBOX_WORKER_FIRST_TASK_ID", "Histogram_1")].

Definition inside : Ambient :=
  {| _current_sandbox := ["docker::image"]; _sandbox_switched := true;
     _sandbox_task_id := "Histogram_1"; _sandbox_worker_id := "w1";
     _sandbox_worker_first_task_id := "Histogram_1"; _sandbox_is_root_task := false;
     _sandbox_stagein_dir := ""; _sandbox_stageout_dir := "" |}.

(** A fresh task object in a process whose subprocess will exit with
    [code] and leave [produced] behind. *)
Definition fresh (code : Z) (produced : list string) : State :=
  {| _envs := ∅;
     world := {| files := []; next_exit := code; will_produce := produced |};
     trace := [];
     _sandbox_initialized := false; _effective_sandbox := None;
     _sandbox_inst := None; _sandbox_proxy := None |}.

Definition docker_image : Sandbox := Sandbox_object docker "docker" "image".

(** A run whose subprocess exits with code 17. *)
Definition failing_run : result unit * State :=
  SandboxProxy_run outside registry (task outputs) (fresh 17 []).

(** A run whose subprocess exits with code 0 and produces no output. *)
Definition successful_run : result unit * State :=
  SandboxProxy_run outside registry (task outputs) (fresh 0 []).

(** A process whose subprocess will produce the first of the two
    outputs only, and the states of a run in it when the command is
    built and when the subprocess has returned. *)
Definition partial_start : State := fresh 0 ["/tmp/law/stage/h5_hist.root"].

Definition partial_built : State := (run_setup outside registry (task outputs) partial_start).2.

Definition partial_ran : State :=
  (run_command outside registry (task outputs) "docker run image" partial_built).2.

(** A task that has resolved its sandbox outside of any sandbox. *)
Definition resolved : State :=
  (_initialize_sandbox outside registry (task outputs) false (fresh 0 [])).2.

End Demo.

Section Witnesses.
#[local] Existing Instance Demo.collaborators.

Lemma demo_inside_is_loaded : load_ambient Demo.inside_environ = Ok Demo.inside.
Proof. reflexivity. Qed.

Lemma env_resolved_once_per_key_witness :
  Sandbox_env Demo.docker_image (Sandbox_env Demo.docker_image (Demo.fresh 0 [])).2
  = (Ok [("IMAGE", "image")], (Sandbox_env Demo.docker_image (Demo.fresh 0 [])).2).
Proof.
  refine (proj1 (proj1 (env_resolved_once_per_key
                          Demo.docker_image Demo.docker_image (Demo.fresh 0 []) eq_refl)
                   _ _ _)).
  reflexivity.
Defined.

Lemma run_failure_skips_stageout_witness :
  (exists s, _sandbox_inst Demo.failing_run.2 = Some s
             /\ Demo.failing_run.1 = Raise (Exception (run_failure_message (key s) 17))
             /\ forall code',
                  Demo.failing_run.1 = Raise (Exception (run_failure_message (key s) code')) ->
                  code' = 17%Z)
  /\ Forall (fun ev => ~ finish_event ev) (trace Demo.failing_run.2).
Proof.
  apply (run_failure_skips_stageout Demo.outside Demo.registry (Demo.task Demo.outputs)
           (Demo.fresh 17 []) Demo.failing_run.2 Demo.failing_run.1
           (trace Demo.failing_run.2) "docker run image" 17).
  - vm_compute. reflexivity.
  - reflexivity.
  - vm_compute. tauto.
  - discriminate.
Defined.






Lemma stageout_best_effort_witness :
  exists st',
    SandboxProxy_run Demo.outside Demo.registry (Demo.task Demo.outputs) Demo.partial_start
    = (Ok tt, st')
    /\ trace st'
       = (trace Demo.partial_ran
          ++ [EvCopyFromLocal (Demo.file "/store/hist.root" "h5_hist.root")
                (create_staged_target "/tmp/law/stage"
                   (Demo.file "/store/hist.root" "h5_hist.root"));
              missing_output
                (create_staged_target "/tmp/law/stage"
                   (Demo.file "/store/log.txt" "h6_log.txt"))]
          ++ after_run_events (Demo.task Demo.outputs))%list.
Proof.
  refine (proj1 (stageout_best_effort
                   Demo.outside Demo.registry (Demo.task Demo.outputs)
                   Demo.partial_start Demo.partial_built Demo.partial_ran
                   (mkStageInfo Demo.outputs "/tmp/law/stage"
                      (create_staged_target_struct "/tmp/law/stage" Demo.outputs))
                   "docker run image"
                   (Demo.file "/store/hist.root" "h5_hist.root")
                   (Demo.file "/store/log.txt" "h6_log.txt") _ _ _)
                (Demo.add_file "/store/hist.root" (world Demo.partial_ran)) _ _ _ _).
  - vm_compute. reflexivity.
  - vm_compute. reflexivity.
  - reflexivity.
  - vm_compute. reflexivity.
  - reflexivity.
  - vm_compute. reflexivity.
  - reflexivity.
Defined.

Lemma no_nesting_inside_matching_sandbox_witness :
  _initialize_sandbox Demo.inside Demo.registry (Demo.task Demo.outputs) false
    (Demo.fresh 0 [])
  = (Ok tt, set_task_fields true (Some "docker::image") None None (Demo.fresh 0 [])).
Proof.
  refine (proj1 (no_nesting_inside_matching_sandbox
                   Demo.inside Demo.registry (Demo.task Demo.outputs)
                   "docker::image" false (Demo.fresh 0 []) _ _ _)).
  - split; [constructor | exists []; reflexivity].
  - reflexivity.
  - left. reflexivity.
Defined.

Lemma is_sandboxed_iff_direct_witness :
  exists s, _sandbox_inst Demo.resolved = Some s
            /\ SandboxTask_env Demo.outside Demo.registry (Demo.task Demo.outputs)
                 Demo.resolved
               = Sandbox_env s Demo.resolved.
Proof.
  refine (proj2 (proj2 (proj2 (is_sandboxed_iff_direct
                                 Demo.outside Demo.registry (Demo.task Demo.outputs)
                                 Demo.resolved Demo.resolved false _ _))) eq_refl).
  - intros _. split; [split; discriminate | discriminate].
  - vm_compute. reflexivity.
Defined.

End Witnesses.

(** * Further properties of [base.py] *)

(** ** Keys: what [split_key] returns and what [remove_type] keeps *)

Lemma contains_delimiter_before_colon (t : string) :
  Str.contains delimiter (t +:+ ":") = false -> Str.contains delimiter t = false.
Proof.
  induction t as [| c t IH]; intros Hfree; [reflexivity |].
  rewrite append_cons in Hfree. cbn [Str.contains] in Hfree.
  apply orb_false_iff in Hfree as [Hhead Htail].
  cbn [Str.contains]. rewrite (IH Htail), orb_false_r.
  destruct (String.prefix delimiter (String c t)) eqn:Hp; [| reflexivity].
  apply prefix_delimiter in Hp as [r Hp]. injection Hp as -> ->.
  rewrite append_cons in Hhead.
  now rewrite (proj2 (prefix_delimiter _) (ex_intro _ (r +:+ ":") eq_refl)) in Hhead.
Qed.

Lemma partition_without_delimiter (s : string) :
  Str.contains delimiter s = false -> Str.partition delimiter s = (s, None).
Proof.
  induction s as [| c s IH]; intros Hfree; [reflexivity |].
  cbn [Str.contains] in Hfree. apply orb_false_iff in Hfree as [Hhead Htail].
  cbn [Str.partition]. now rewrite Hhead, (IH Htail).
Qed.

(** X1: the pair that [split_key] returns joins back to the key, its two
    parts hold a character that is not whitespace, and its type holds no
    delimiter: the split is at the first one. *)
Theorem split_key_parts (key t n : string) :
  split_key key = Ok (t, n) ->
  join_key t n = key
  /\ Str.contains delimiter t = false
  /\ Str.strip t <> "" /\ Str.strip n <> "".
Proof.
  intros Hs. apply split_key_ok in Hs as (Hs & Ht & Hn).
  apply split1_two in Hs as [-> Hfree].
  repeat split; try assumption.
  - unfold join_key. apply append_assoc.
  - now apply contains_delimiter_before_colon.
Qed.

(** X2: [remove_type] returns the name of a joined key whose type is
    followed by the first delimiter, returns a name without delimiter as
    it is, and raises [ValueError] for a comma. *)
Theorem remove_type_keeps_name (t n : string) :
  (Str.contains "," (join_key t n) = false ->
   Str.contains delimiter (t +:+ ":") = false ->
   remove_type (join_key t n) = Ok n)
  /\ (Str.contains "," n = false ->
      Str.contains delimiter n = false ->
      remove_type n = Ok n)
  /\ (Str.contains "," n = true ->
      remove_type n = Raise (ValueError ("invalid sandbox key format '" +:+ n +:+ "'"))).
Proof.
  unfold remove_type, check_key. repeat split.
  - intros -> Hfree. unfold join_key. now rewrite append_assoc, partition_join.
  - intros -> Hfree. now rewrite partition_without_delimiter.
  - now intros ->.
Qed.

(** ** The walk through the backend classes *)

Section Registry.
Context `{Collaborators}.









(** X4: the walk is breadth first: a class of the list given to it is
    chosen before any subclass of an earlier class of the list. *)
Theorem find_class_prefers_listed_classes (_type : string)
    (before after : list SandboxClass) (c : SandboxClass) :
  Forall (fun c' => cls_sandbox_type c' <> Some _type) before ->
  cls_sandbox_type c = Some _type ->
  find_class _type (before ++ c :: after) = Some c.
Proof.
  intros Hbefore Hc. revert after.
  induction Hbefore as [| c' before Hc' _ IH]; intros after; cbn [app]; simp find_class.
  - now rewrite bool_decide_eq_true_2.
  - rewrite bool_decide_eq_false_2 by assumption.
    rewrite <- app_assoc. cbn [app]. apply IH.
Qed.

(** X5: the instance that [Sandbox.new] returns carries the two parts of
    the key as its type and name, its key is the key given, and it holds
    no staging information yet. *)
Theorem Sandbox_new_instance (registry : list SandboxClass) (k : string) (s : Sandbox) :
  Sandbox_new registry k = Ok s ->
  split_key k = Ok (sandbox_type s, name s)
  /\ key s = k
  /\ Str.contains "," k = false
  /\ stagein_info s = None /\ stageout_info s = None.
Proof.
  intros Hnew. pose proof (Sandbox_new_key _ _ _ Hnew) as Hkey.
  unfold Sandbox_new, Sandbox_new_for, check_key in Hnew.
  destruct (Str.contains "," k); [discriminate Hnew |].
  destruct (split_key k) as [[t n] | e]; [| discriminate Hnew].
  destruct (find_class t registry) as [c |]; [| discriminate Hnew].
  apply key_instantiate in Hnew as [-> _]. destruct c. cbn. auto.
Qed.

End Registry.

(** ** The ambient state of the module *)

Lemma split_char_not_nil (sep : ascii) (s : string) : Str.split_char sep s <> [].
Proof.
  induction s as [| c s IH]; cbn [Str.split_char]; [discriminate |].
  destruct (Ascii.eqb c sep); [discriminate |].
  destruct (Str.split_char sep s); discriminate.
Qed.

Lemma split_char_comma_free (s p : string) :
  In p (Str.split_char "," s) -> Str.contains "," p = false.
Proof.
  revert p. induction s as [| c s IH]; intros p; cbn [Str.split_char].
  - intros [<- | []]. reflexivity.
  - destruct (Ascii.eqb_spec c ",") as [-> | Hc].
    + intros [<- | Hin]; [reflexivity | now apply IH].
    + assert (Hhead : forall q, Str.contains "," q = false ->
                                Str.contains "," (String c q) = false).
      { intros q Hq. cbn [Str.contains]. rewrite Hq, orb_false_r, prefix_cons.
        destruct (ascii_dec "," c) as [<- |]; [now destruct Hc | reflexivity]. }
      destruct (Str.split_char "," s) as [| p0 ps].
      * intros [<- | []]. now apply Hhead.
      * intros [<- | Hin]; [apply Hhead, IH; now left | apply IH; now right].
Qed.

(** X6: outside of a sandbox the module loads whatever the environment
    holds; with [LAW_SANDBOX_SWITCHED] set to 1 it loads exactly when the
    first entry of [LAW_SANDBOX], the task id, the worker id and the id of
    the first task of the worker are all non-empty. *)
Theorem load_ambient_outcome (environ : Env) :
  (getenv environ "LAW_SANDBOX_SWITCHED" <> "1" ->
   is_ok (load_ambient environ) = true)
  /\ (getenv environ "LAW_SANDBOX_SWITCHED" = "1" ->
      (is_ok (load_ambient environ) = true
       <-> (exists first rest,
              Str.split_char "," (getenv environ "LAW_SANDBOX") = first :: rest
              /\ first <> "")
           /\ getenv environ "LAW_SANDBOX_TASK_ID" <> ""
           /\ getenv environ "LAW_SANDBOX_WORKER_ID" <> ""
           /\ getenv environ "LAW_SANDBOX_WORKER_FIRST_TASK_ID" <> "")).
Proof.
  unfold load_ambient. cbn [_sandbox_switched _current_sandbox _sandbox_task_id
                            _sandbox_worker_id _sandbox_worker_first_task_id].
  split.
  - intros Hoff. apply String.eqb_neq in Hoff. now rewrite Hoff.
  - intros Hon. rewrite Hon. change (String.eqb "1" "1") with true. cbv beta iota.
    destruct (Str.split_char "," (getenv environ "LAW_SANDBOX")) as [| first rest] eqn:Hs.
    { now destruct (split_char_not_nil _ _ Hs). }
    rewrite <- !truthy_nonempty.
    destruct (Str.truthy first) eqn:H1; cbn [negb];
      [| split; [discriminate | intros ((f & r & [= <- <-] & Hf) & _);
                                apply truthy_nonempty in Hf; congruence]].
    destruct (Str.truthy (getenv environ "LAW_SANDBOX_TASK_ID")); cbn [negb];
      [| split; [discriminate | intros (_ & ? & _); discriminate]].
    destruct (Str.truthy (getenv environ "LAW_SANDBOX_WORKER_ID")); cbn [negb];
      [| split; [discriminate | intros (_ & _ & ? & _); discriminate]].
    destruct (Str.truthy (getenv environ "LAW_SANDBOX_WORKER_FIRST_TASK_ID")); cbn [negb];
      [| split; [discriminate | intros (_ & _ & _ & ?); discriminate]].
    split; [intros _ | reflexivity]. repeat split.
    exists first, rest. split; [reflexivity |]. now apply truthy_nonempty.
Qed.

(** X7: the ambient list of sandbox keys is never empty, so its first
    entry can always be read, and every entry of it passes [check_key]:
    the commas of [LAW_SANDBOX] only separate keys. *)
Theorem ambient_keys_pass_check_key (environ : Env) (amb : Ambient) :
  load_ambient environ = Ok amb ->
  _current_sandbox amb <> []
  /\ forall k silent, In k (_current_sandbox amb) -> check_key k silent = Ok true.
Proof.
  intros Hload.
  assert (Hcur : _current_sandbox amb = Str.split_char "," (getenv environ "LAW_SANDBOX")).
  { unfold load_ambient in Hload.
    repeat match type of Hload with
           | (if ?b then _ else _) = _ => destruct b
           | match ?l with [] => _ | _ :: _ => _ end = _ => destruct l
           end; try discriminate Hload; now injection Hload as <-. }
  rewrite Hcur. split; [apply split_char_not_nil |].
  intros k silent Hin. unfold check_key. now rewrite (split_char_comma_free _ _ Hin).
Qed.

(** ** The cache of environments over time *)

Section CacheOverTime.
Context `{Collaborators}.

Lemma Sandbox_env_cache (s : Sandbox) (st : State) (k : string * string) :
  (forall e, _envs st !! k = Some e -> _envs (Sandbox_env s st).2 !! k = Some e)
  /\ (cache_key s <> k -> _envs (Sandbox_env s st).2 !! k = _envs st !! k).
Proof.
  destruct (_envs st !! cache_key s) as [e0 |] eqn:Hk.
  - rewrite (Sandbox_env_hit _ _ _ Hk). auto.
  - rewrite (Sandbox_env_miss _ _ Hk).
    destruct (create_env s (world st)) as [[e' | x] w]; cbn [snd after_resolve _envs]; [| auto].
    split.
    + intros e He. rewrite lookup_insert_ne; [exact He | congruence].
    + intros Hne. now rewrite lookup_insert_ne.
Qed.

(** X8: an environment, once cached, is never replaced or dropped by
    later accesses, and an access touches no entry but the one of its own
    cache key. *)
Theorem cached_environments_persist (l : list Sandbox) (st : State)
    (k : string * string) :
  (forall e, _envs st !! k = Some e -> _envs (accesses l st) !! k = Some e)
  /\ (Forall (fun s => cache_key s <> k) l ->
      _envs (accesses l st) !! k = _envs st !! k).
Proof.
  revert st. induction l as [| s l IH]; intros st; [auto |].
  cbn [accesses fold_left]. fold (accesses l (Sandbox_env s st).2).
  destruct (IH (Sandbox_env s st).2) as [IH1 IH2].
  destruct (Sandbox_env_cache s st k) as [H1 H2]. split.
  - intros e He. apply IH1, H1, He.
  - intros Hall. inversion Hall as [| ? ? Hs Hl]; subst.
    rewrite (IH2 Hl). now apply H2.
Qed.

Lemma Sandbox_env_cached (s : Sandbox) (st ste : State) (e : Env) :
  Sandbox_env s st = (Ok e, ste) -> _envs ste !! cache_key s = Some e.
Proof.
  destruct (_envs st !! cache_key s) as [e0 |] eqn:Hk.
  - rewrite (Sandbox_env_hit _ _ _ Hk). now intros [= <- <-].
  - rewrite (Sandbox_env_miss _ _ Hk).
    destruct (create_env s (world st)) as [[e' | x] w]; [| discriminate].
    intros [= <- <-]. cbn [after_resolve _envs]. apply lookup_insert_eq.
Qed.

(** X9: [Sandbox.run] goes through the cache: once a run of a sandbox
    has launched its command and returned, a further run of that sandbox
    resolves nothing; it launches its command with the cached environment
    and records nothing but the launch. *)
Theorem Sandbox_run_reuses_environment (s : Sandbox) (first second : string)
    (st st1 : State) (code : Z) :
  Sandbox_run s first st = (Ok code, st1) ->
  exists e,
    _envs st1 !! cache_key s = Some e
    /\ Sandbox_run s second st1
       = ((interruptable_popen second e (world st1)).1,
          log (EvPopen second (interruptable_popen second e (world st1)).1)
              (set_world (interruptable_popen second e (world st1)).2 st1)).
Proof.
  rewrite Sandbox_run_unfold.
  destruct (Sandbox_env s st) as [[e | x] ste] eqn:Henv; [| discriminate].
  apply Sandbox_env_cached in Henv.
  destruct (interruptable_popen first e (world ste)) as [rp w]. intros [= -> <-].
  exists e. cbn [log set_world _envs world]. split; [exact Henv |].
  rewrite Sandbox_run_unfold, (Sandbox_env_hit s _ e) by exact Henv.
  cbn [log set_world world]. now destruct (interruptable_popen second e w).
Qed.

End CacheOverTime.

(** ** The record of a run, event by event *)

Section RunOrder.
Context `{Collaborators}.
Variable amb : Ambient.
Variable registry : list SandboxClass.
Variable task : Task.

(** What the [RUNNING] phase can leave on record, with its outcome:
    nothing when the sandbox instance is missing, the two banners around
    the resolution of the environment when that raised, and otherwise the
    two banners around the resolution and one launch of the command. *)
Inductive command_record (command : string) : list event -> result unit -> Prop :=
| record_nothing (x : exn) :
    command_record command [] (Raise x)
| record_unresolved (s : Sandbox) (res : list event) (x : exn) :
    Forall resolver_event res ->
    command_record command (entering task s :: res ++ [leaving task s]) (Raise x)
| record_launched (s : Sandbox) (res : list event) (rp : result Z) :
    Forall resolver_event res ->
    command_record command
      (entering task s :: res ++ [EvPopen command rp; leaving task s])
      (match rp with Raise x => Raise x | Ok code => exit_outcome s code end).

Lemma run_command_record (command : string) (st st' : State) (r : result unit) :
  run_command amb registry task command st = (r, st') ->
  exists evs, trace st' = (trace st ++ evs)%list /\ command_record command evs r.
Proof.
  intros Hrun.
  destruct (sandbox_inst amb registry task st) as [[[s |] | x] st1] eqn:Hs.
  - destruct (sandbox_inst_returns _ _ _ _ _ _ Hs) as (Hinit & Hinst & Htr).
    assert (Hsame : run_command amb registry task command st
                    = run_command amb registry task command st1).
    { unfold run_command, _run_context, print_banner.
      unfold bind at 1. symmetry. unfold bind at 1.
      now rewrite (sandbox_inst_again _ _ _ _ _ _ _ Hs). }
    rewrite Hsame, (run_command_ready _ _ _ _ _ _ Hinit Hinst) in Hrun. rewrite <- Htr.
    pose proof (emits_Sandbox_env s (log (entering task s) st1)) as (evs & Hevs & Hres).
    destruct (Sandbox_env s (log (entering task s) st1)) as [[e | x] ste];
      cbn [snd log trace] in Hevs.
    + destruct (interruptable_popen command e (world ste)) as [rp w].
      injection Hrun as <- <-.
      exists (entering task s :: evs ++ [EvPopen command rp; leaving task s])%list.
      cbn [log set_world trace]. rewrite Hevs. split.
      * rewrite <- !app_assoc. reflexivity.
      * now constructor.
    + injection Hrun as <- <-.
      exists (entering task s :: evs ++ [leaving task s])%list.
      cbn [log trace]. rewrite Hevs. split.
      * rewrite <- !app_assoc. reflexivity.
      * now constructor.
  - pose proof (emits_nothing _ st (emits_sandbox_inst amb registry task)) as Htr.
    rewrite Hs in Htr. revert Hrun.
    unfold run_command, _run_context, print_banner.
    unfold bind at 1. unfold bind at 1. rewrite Hs. cbn [deref raise]. intros [= <- <-].
    exists []. rewrite app_nil_r. cbn [snd] in Htr. split; [now symmetry | constructor].
  - pose proof (emits_nothing _ st (emits_sandbox_inst amb registry task)) as Htr.
    rewrite Hs in Htr. revert Hrun.
    unfold run_command, _run_context, print_banner.
    unfold bind at 1. unfold bind at 1. rewrite Hs. intros [= <- <-].
    exists []. rewrite app_nil_r. cbn [snd] in Htr. split; [now symmetry | constructor].
Qed.

(** The record of a whole run: the events of the setup, the record of
    the [RUNNING] phase, the events of stage-out and of the [after_run]
    hook; nothing follows a phase that raised. *)
Lemma run_shape (st st' : State) (r : result unit) :
  SandboxProxy_run amb registry task st = (r, st') ->
  exists evs1 evs2 evs3 command r2,
    trace st' = (trace st ++ evs1 ++ evs2 ++ evs3)%list
    /\ Forall setup_event evs1 /\ Forall finish_event evs3
    /\ command_record command evs2 r2
    /\ (is_ok r2 = false -> evs3 = [] /\ r = r2)
    /\ (is_ok r = true -> is_ok r2 = true).
Proof.
  rewrite run_phases. intros Hrun.
  pose proof (emits_run_setup amb registry task st) as (evs1 & Htr1 & Hev1).
  destruct (run_setup amb registry task st) as [[[info_out command] | e] st1] eqn:Hsetup;
    cbn [snd] in Htr1.
  - destruct (run_command amb registry task command st1) as [r2 st2] eqn:Hcmd.
    destruct (run_command_record _ _ _ _ Hcmd) as (evs2 & Htr2 & Hrec).
    destruct r2 as [[] | e].
    + pose proof (emits_run_finish task info_out st2) as (evs3 & Htr3 & Hev3).
      rewrite Hrun in Htr3. cbn [snd] in Htr3.
      exists evs1, evs2, evs3, command, (Ok tt).
      rewrite Htr3, Htr2, Htr1, <- !app_assoc. repeat split; try assumption; discriminate.
    + injection Hrun as <- <-.
      exists evs1, evs2, [], command, (Raise e).
      rewrite Htr2, Htr1, app_nil_r, <- !app_assoc.
      repeat split; try assumption; try constructor. discriminate.
  - injection Hrun as <- <-. exists evs1, [], [], "", (Raise e).
    rewrite Htr1, !app_nil_r. repeat split; try assumption; try constructor. discriminate.
Qed.

Definition is_banner (ev : event) : Prop :=
  match ev with
  | EvBanner _ _ _ => True
  | _ => False
  end.

Definition is_popen (ev : event) : Prop :=
  match ev with
  | EvPopen _ _ => True
  | _ => False
  end.

Lemma Forall_event_impl (P Q : event -> Prop) (evs : list event) :
  (forall ev, P ev -> Q ev) -> Forall P evs -> Forall Q evs.
Proof. intros HPQ Hall. eapply Forall_impl; eauto. Qed.

(** X10: the banner "leaving sandbox" closes every banner "entering
    sandbox", also when resolving the environment or the command raises
    or the command fails: a run prints either no banner at all, or the two
    of them, in this order, once, and for the same sandbox. *)
Theorem run_banners_are_paired (st st' : State) (r : result unit) (evs : list event) :
  SandboxProxy_run amb registry task st = (r, st') ->
  trace st' = (trace st ++ evs)%list ->
  Forall (fun ev => ~ is_banner ev) evs
  \/ exists s pre mid post,
       evs = (pre ++ entering task s :: mid ++ leaving task s :: post)%list
       /\ Forall (fun ev => ~ is_banner ev) pre
       /\ Forall (fun ev => ~ is_banner ev) mid
       /\ Forall (fun ev => ~ is_banner ev) post.
Proof.
  intros Hrun Htr.
  destruct (run_shape _ _ _ Hrun)
    as (evs1 & evs2 & evs3 & command & r2 & Htr' & H1 & H3 & Hrec & _).
  rewrite Htr' in Htr. apply app_inv_head in Htr. subst evs.
  assert (Hpre : Forall (fun ev => ~ is_banner ev) evs1).
  { eapply Forall_event_impl; [| exact H1]. now intros []. }
  assert (Hpost : Forall (fun ev => ~ is_banner ev) evs3).
  { eapply Forall_event_impl; [| exact H3]. now intros []. }
  assert (Hres : forall res, Forall resolver_event res ->
                             Forall (fun ev => ~ is_banner ev) res).
  { intros res. apply Forall_event_impl. now intros []. }
  destruct Hrec as [x | s res x Hr | s res rp Hr].
  - left. cbn [app]. now apply Forall_app.
  - right. exists s, evs1, res, evs3. cbn [app]. rewrite <- !app_assoc. cbn [app]. auto.
  - right. exists s, evs1, (res ++ [EvPopen command rp])%list, evs3.
    cbn [app]. rewrite <- !app_assoc. cbn [app]. repeat split; auto.
    apply Forall_app. split; [auto |]. repeat constructor. exact id.
Qed.

(** Events that can precede the launch of the command, and events that
    can follow it. *)
Definition before_command (ev : event) : Prop :=
  setup_event ev \/ exists s, ev = entering task s.

Definition after_command (ev : event) : Prop :=
  finish_event ev \/ exists s, ev = leaving task s.

Lemma launch_position (A B pre post : list event) (x y : event) :
  Forall (fun ev => ~ is_popen ev) A -> Forall (fun ev => ~ is_popen ev) B ->
  is_popen x -> is_popen y ->
  (A ++ x :: B = pre ++ y :: post)%list -> A = pre /\ B = post.
Proof.
  intros HA HB Hx Hy. revert pre. induction HA as [| a A Ha HA IH]; intros pre E.
  - destruct pre as [| p pre]; cbn [app] in E.
    + injection E as _ <-. auto.
    + injection E as <- E. exfalso. rewrite Forall_forall in HB.
      apply (HB y); [| exact Hy]. rewrite E. apply list_elem_of_In, in_elt.
  - destruct pre as [| p pre]; cbn [app] in E.
    + injection E as -> _. now destruct (Ha Hy).
    + injection E as <- E. destruct (IH _ E) as [-> ->]. auto.
Qed.

(** X11: a run launches the command at most once; whatever it records
    before the launch belongs to the setup (the [before_run] hook, the
    stage-in copies, the resolution of the environment, the entering
    banner), and whatever it records after the launch is the leaving
    banner, stage-out and the [after_run] hook. *)
Theorem run_order (st st' : State) (r : result unit)
    (pre post : list event) (c : string) (rp : result Z) :
  SandboxProxy_run amb registry task st = (r, st') ->
  trace st' = (trace st ++ pre ++ EvPopen c rp :: post)%list ->
  Forall before_command pre /\ Forall after_command post.
Proof.
  intros Hrun Htr.
  destruct (run_shape _ _ _ Hrun)
    as (evs1 & evs2 & evs3 & command & r2 & Htr' & H1 & H3 & Hrec & _).
  rewrite Htr' in Htr. apply app_inv_head in Htr.
  assert (Hno1 : Forall (fun ev => ~ is_popen ev) evs1).
  { eapply Forall_event_impl; [| exact H1]. now intros []. }
  assert (Hno3 : Forall (fun ev => ~ is_popen ev) evs3).
  { eapply Forall_event_impl; [| exact H3]. now intros []. }
  assert (Hres : forall res, Forall resolver_event res ->
                             Forall (fun ev => ~ is_popen ev) res).
  { intros res. apply Forall_event_impl. now intros []. }
  assert (Habsurd : forall evs, Forall (fun ev => ~ is_popen ev) evs ->
                                evs = (pre ++ EvPopen c rp :: post)%list -> False).
  { intros evs Hall ->. rewrite Forall_forall in Hall.
    apply (Hall (EvPopen c rp)); [apply list_elem_of_In, in_elt | exact I]. }
  destruct Hrec as [x | s res x Hr | s res rp' Hr].
  - exfalso. apply (Habsurd (evs1 ++ [] ++ evs3)%list); [| exact Htr].
    cbn [app]. now apply Forall_app.
  - exfalso.
    apply (Habsurd (evs1 ++ (entering task s :: res ++ [leaving task s]) ++ evs3)%list);
      [| exact Htr].
    apply Forall_app. split; [assumption |]. apply Forall_app. split; [| assumption].
    constructor; [exact id |]. apply Forall_app. split; [auto |]. repeat constructor. exact id.
  - assert (E : ((evs1 ++ entering task s :: res) ++ EvPopen command rp'
                   :: leaving task s :: evs3 = pre ++ EvPopen c rp :: post)%list).
    { rewrite <- Htr, <- !app_assoc. cbn [app]. rewrite <- !app_assoc. reflexivity. }
    apply launch_position in E as [<- <-]; try exact I.
    + split.
      * apply Forall_app. split.
        -- eapply Forall_event_impl; [| exact H1]. intros ev Hev. now left.
        -- constructor; [right; now exists s |].
           eapply Forall_event_impl; [| exact Hr]. intros [] Hev; try easy. now left.
      * constructor; [right; now exists s |].
        eapply Forall_event_impl; [| exact H3]. intros ev Hev. now left.
    + apply Forall_app. split; [assumption |]. constructor; [exact id | auto].
    + constructor; [exact id | assumption].
Qed.

(** X12: a run returns normally only after the command was launched and
    exited with code 0. *)
Theorem run_success_needs_exit_zero (st st' : State) (evs : list event) :
  SandboxProxy_run amb registry task st = (Ok tt, st') ->
  trace st' = (trace st ++ evs)%list ->
  exists pre post command, evs = (pre ++ EvPopen command (Ok 0%Z) :: post)%list.
Proof.
  intros Hrun Htr.
  destruct (run_shape _ _ _ Hrun)
    as (evs1 & evs2 & evs3 & command & r2 & Htr' & H1 & H3 & Hrec & _ & Hok).
  rewrite Htr' in Htr. apply app_inv_head in Htr. subst evs.
  specialize (Hok eq_refl).
  destruct Hrec as [x | s res x Hr | s res rp Hr]; try discriminate Hok.
  destruct rp as [code | x]; [| discriminate Hok].
  unfold exit_outcome in Hok. destruct (Z.eqb_spec code 0) as [-> |]; [| discriminate Hok].
  exists (evs1 ++ entering task s :: res)%list, (leaving task s :: evs3), command.
  rewrite <- !app_assoc. cbn [app]. rewrite <- !app_assoc. reflexivity.
Qed.







(** X14: the [before_run] hook of a task is the first thing a run does;
    when the hook raises, the run raises the same exception and does
    nothing else. *)
Theorem before_run_hook_comes_first (st st' : State) (r : result unit)
    (hook : World -> result unit * World) :
  sandbox_before_run task = Some hook ->
  SandboxProxy_run amb registry task st = (r, st') ->
  (exists evs, trace st' = (trace st ++ EvBeforeRun :: evs)%list)
  /\ (forall e, (hook (world st)).1 = Raise e ->
                r = Raise e
                /\ st' = set_world (hook (world st)).2 (log EvBeforeRun st)).
Proof.
  intros Hhook Hrun. rewrite run_phases in Hrun.
  assert (Hfirst : exists evs1,
             trace (run_setup amb registry task st).2 = (trace st ++ EvBeforeRun :: evs1)%list
             /\ forall e, (hook (world st)).1 = Raise e ->
                  run_setup amb registry task st
                  = (Raise e, set_world (hook (world st)).2 (log EvBeforeRun st))).
  { unfold run_setup. rewrite Hhook.
    match goal with
    | |- context [bind ?m ?k st] =>
        assert (Hk : forall a, emits setup_event (k a))
    end.
    { intros a.
      repeat first [ apply emits_stagein
                   | apply emits_prepare_stageout
                   | eapply emits_weaken; [| apply emits_sandbox_inst]; intros ? []
                   | eapply emits_weaken; [| apply emits_create_proxy_cmd]; intros ? []
                   | eapply emits_weaken; [| apply emits_update_sandbox_inst]; intros ? []
                   | emits_step ]. }
    assert (Hcall : (emit EvBeforeRun >> call hook) st
                    = ((hook (world st)).1,
                       set_world (hook (world st)).2 (log EvBeforeRun st))).
    { unfold bind, emit, call. cbn [log world]. now destruct (hook (world st)). }
    destruct (hook (world st)) as [[[] | e] w]; cbn [fst snd] in Hcall |- *.
    - rewrite (bind_Ok _ _ _ _ _ Hcall).
      destruct (Hk tt (set_world w (log EvBeforeRun st))) as (evs1 & Htr1 & _).
      exists evs1. split; [| discriminate].
      etransitivity; [exact Htr1 |]. cbn [set_world log trace].
      rewrite <- app_assoc. reflexivity.
    - rewrite (bind_Raise _ _ _ _ _ Hcall).
      exists []. split; [reflexivity |]. intros e' [= <-]. reflexivity. }
  destruct Hfirst as (evs1 & Htr1 & Hraise). split.
  - destruct (run_setup amb registry task st) as [[[info_out command] | e] st1];
      cbn [snd] in Htr1.
    + destruct (run_command amb registry task command st1) as [r2 st2] eqn:Hcmd.
      destruct (run_command_outcome _ _ _ _ _ _ _ Hcmd) as (evs2 & Htr2 & _).
      destruct r2 as [[] | e].
      * pose proof (emits_run_finish task info_out st2) as (evs3 & Htr3 & _).
        rewrite Hrun in Htr3. cbn [snd] in Htr3.
        exists (evs1 ++ evs2 ++ evs3)%list.
        rewrite Htr3, Htr2, Htr1, <- !app_assoc. reflexivity.
      * injection Hrun as <- <-. exists (evs1 ++ evs2)%list.
        rewrite Htr2, Htr1, <- !app_assoc. reflexivity.
    + injection Hrun as <- <-. now exists evs1.
  - intros e He. rewrite (Hraise e He) in Hrun. now injection Hrun as <- <-.
Qed.

End RunOrder.

(** ** Staging, leaf by leaf *)

Section StagingLoops.
Context `{Collaborators}.


(** Stage-in of the leaves [ls] from the world [w] ended with [r], having
    recorded [evs]: all copies were made and returned, or the copies of
    the leaves [pre] returned, the copy of the next leaf raised [r] in the
    world they left, and the leaves after it were not touched. *)
Definition copied_until_failure (f : Target -> Target) (ls : list Target) (w : World)
    (r : result unit) (evs : list event) : Prop :=
  match r with
  | Ok _ => evs = copies_in f ls /\ copies_return f ls w
  | Raise e =>
      exists pre t rest,
        ls = (pre ++ t :: rest)%list
        /\ evs = copies_in f (pre ++ [t])
        /\ copies_return f pre w
        /\ (copy_to_local t (f t) (copies_world f pre w)).1 = Raise e
  end.

Lemma copy_in_leaves_until_failure (f : Target -> Target) (ls : list Target) (st : State) :
  exists evs,
    trace (each_leaf copy_in f ls st).2 = (trace st ++ evs)%list
    /\ copied_until_failure f ls (world st) (each_leaf copy_in f ls st).1 evs.
Proof.
  revert st. induction ls as [| t ls IH]; intros st.
  - exists []. cbn. now rewrite app_nil_r.
  - cbn [each_leaf]. pose proof (copy_in_run t (f t) st) as Hin.
    destruct (copy_to_local t (f t) (world st)) as [[[] | e] w] eqn:Hcopy; cbn [fst snd] in Hin.
    + rewrite (bind_Ok _ _ _ _ _ Hin).
      destruct (IH (set_world w (log (EvCopyToLocal t (f t)) st))) as (evs & Htr & Hevs).
      exists (EvCopyToLocal t (f t) :: evs). split.
      * rewrite Htr. cbn [set_world log trace]. now rewrite <- app_assoc.
      * revert Hevs. unfold copied_until_failure. cbn [set_world log world].
        destruct (each_leaf copy_in f ls (set_world w (log (EvCopyToLocal t (f t)) st))).1
          as [[] | e].
        -- intros [-> Hrest]. split; [reflexivity |].
           cbn [copies_return]. now rewrite Hcopy.
        -- intros (pre & t0 & rest & -> & -> & Hpre & Hraise).
           exists (t :: pre), t0, rest. cbn [copies_return copies_world].
           rewrite Hcopy. cbn [fst snd]. auto.
    + rewrite (bind_Raise _ _ _ _ _ Hin).
      exists [EvCopyToLocal t (f t)]. split; [reflexivity |].
      exists [], t, ls. cbn [copies_return copies_world]. now rewrite Hcopy.
Qed.

(** X15: stage-in over a structure and its staged copy never fails on
    the shape of the two (they are consumed in lockstep): either every
    leaf has been copied, or the loop raises what the copy of a leaf
    raised in the world of the run at that moment, and stops at once, with
    the copies up to and including that leaf on record and the leaves
    after it untouched. *)
Theorem stagein_stops_at_first_failed_copy (dir : string) (s : Struct) (st : State) :
  exists evs,
    trace (stagein_loop (flatten s) (flatten (create_staged_target_struct dir s)) st).2
    = (trace st ++ evs)%list
    /\ copied_until_failure (create_staged_target dir) (leaves s) (world st)
         (stagein_loop (flatten s) (flatten (create_staged_target_struct dir s)) st).1 evs.
Proof.
  rewrite stagein_loop_leaves. apply copy_in_leaves_until_failure.
Qed.

Lemma stage_out_record_length (f : Target -> Target) (ls : list Target) (w : World) :
  length (stage_out_record f ls w) = length ls.
Proof.
  revert w. induction ls as [| t ls IH]; intros w; [reflexivity |].
  cbn [stage_out_record]. destruct (target_exists (f t) w); cbn [length]; now rewrite IH.
Qed.

(** X16: stage-out of the information that [prepare_stageout] built
    returns normally exactly when every copy that it makes returns. It
    has then handled every output leaf exactly once, in flattened order:
    for a leaf whose staged file exists when its turn comes it has
    recorded the copy back to the original target, and for a leaf whose
    staged file is missing the warning. *)
Theorem stageout_handles_every_leaf (info : StageInfo) (st : State) :
  staged_under_stage_dir info ->
  let staged := create_staged_target (stage_dir info) in
  (copies_back_return staged (leaves (targets info)) (world st) ->
   exists st',
     stageout info st = (Ok tt, st')
     /\ trace st'
        = (trace st ++ stage_out_record staged (leaves (targets info)) (world st))%list
     /\ world st' = stage_out_world staged (leaves (targets info)) (world st))
  /\ ((stageout info st).1 = Ok tt ->
      copies_back_return staged (leaves (targets info)) (world st))
  /\ length (stage_out_record staged (leaves (targets info)) (world st))
     = length (leaves (targets info)).
Proof.
  intros Hinfo staged.
  assert (Hso : stageout info st = each_leaf copy_out staged (leaves (targets info)) st).
  { unfold stageout. now rewrite Hinfo, stageout_loop_leaves. }
  destruct (copy_out_leaves_outcome staged (leaves (targets info)) st) as [Hreturns Hcopies].
  rewrite <- Hso in Hreturns, Hcopies.
  split; [| split; [exact Hcopies | apply stage_out_record_length]].
  intros Hret. destruct (Hreturns Hret) as (Hr & Htr & Hw).
  destruct (stageout info st) as [r st']. cbn [fst snd] in *. subst r. eauto.
Qed.

Variable amb : Ambient.
Variable registry : list SandboxClass.
Variable task : Task.


End StagingLoops.

(** ** Resolution of the sandbox, case by case *)

Section Resolution.
Context `{Collaborators}.
Variable amb : Ambient.
Variable registry : list SandboxClass.

(** The designation that resolution starts from: the first ambient key
    inside a sandbox, and outside the parameter value when it is among the
    valid sandboxes, the fallback for it when it is not, or the hard-coded
    attribute. *)
Definition designation (task : Task) : result (option string) :=
  if _sandbox_switched amb then
    match _current_sandbox amb with
    | first :: _ => Ok (Some first)
    | [] => Raise (IndexError "list index out of range")
    end
  else
    match sandbox task with
    | ParamValue value =>
        if multi_match value (valid_sandboxes task) then Ok (Some value)
        else Ok (fallback_sandbox task value)
    | HardCoded value => Ok value
    end.

(** The resolver needs to run: nothing is resolved yet, or it is forced. *)
Definition unresolved (force : bool) (st : State) : Prop :=
  _sandbox_initialized st = false \/ force = true.

(** What a run of the resolver does, as a function of the designation. *)
Lemma initialize_sandbox_runs (task : Task) (force : bool) (st : State) :
  unresolved force st ->
  _initialize_sandbox amb registry task force st =
  match designation task with
  | Raise x => (Raise x, set_task_fields true None None None st)
  | Ok e =>
      if is_empty_sandbox e then
        if allow_empty_sandbox task
        then (Ok tt, set_task_fields true (Some NO_STR) None None st)
        else (Raise (Exception ("task " +:+ task_repr task
                                +:+ " requires the sandbox parameter to be set")),
              set_task_fields true e None None st)
      else
        match e with
        | None => (Ok tt, set_task_fields true None None None st)
        | Some k =>
            match Sandbox_new registry k with
            | Raise x => (Raise x, set_task_fields true (Some k) None None st)
            | Ok s =>
                if is_active amb s
                then (Ok tt, set_task_fields true (Some k) None None st)
                else (Ok tt, set_task_fields true (Some k) (Some s) (Some mkSandboxProxy) st)
            end
        end
  end.
Proof.
  intros Hrun.
  assert (Hguard : _sandbox_initialized st && negb force = false).
  { destruct Hrun as [-> | ->]; [reflexivity | apply andb_false_r]. }
  unfold _initialize_sandbox, bind at 1, gets at 1. rewrite Hguard.
  unfold bind at 1, modify at 1. unfold designation.
  assert (Hrest : forall e,
    (set_effective_sandbox e >>
     let* effective := gets _effective_sandbox in
     (if is_empty_sandbox effective then
        if negb (allow_empty_sandbox task)
        then raise (Exception ("task " +:+ task_repr task
                               +:+ " requires the sandbox parameter to be set"))
        else set_effective_sandbox (Some NO_STR)
      else ret tt) >>
     let* effective := gets _effective_sandbox in
     match effective with
     | None => ret tt
     | Some e =>
         if String.eqb e NO_STR then ret tt
         else
           let* sandbox_inst := lift (Sandbox_new registry e) in
           if negb (is_active amb sandbox_inst) then
             modify (fun st => set_task_fields (_sandbox_initialized st)
                                 (_effective_sandbox st) (Some sandbox_inst)
                                 (Some mkSandboxProxy) st)
           else ret tt
     end) (set_task_fields true None None None st)
    = if is_empty_sandbox e then
        if allow_empty_sandbox task
        then (Ok tt, set_task_fields true (Some NO_STR) None None st)
        else (Raise (Exception ("task " +:+ task_repr task
                                +:+ " requires the sandbox parameter to be set")),
              set_task_fields true e None None st)
      else
        match e with
        | None => (Ok tt, set_task_fields true None None None st)
        | Some k =>
            match Sandbox_new registry k with
            | Raise x => (Raise x, set_task_fields true (Some k) None None st)
            | Ok s =>
                if is_active amb s
                then (Ok tt, set_task_fields true (Some k) None None st)
                else (Ok tt, set_task_fields true (Some k) (Some s) (Some mkSandboxProxy) st)
            end
        end).
  { intros e. unfold bind, set_effective_sandbox, modify, gets, raise, ret, lift.
    cbn [set_task_fields _effective_sandbox _sandbox_initialized _sandbox_inst
         _sandbox_proxy _envs world trace].
    destruct e as [k |]; cbn [is_empty_sandbox].
    - destruct (String.eqb k NO_STR) eqn:Hk.
      + destruct (allow_empty_sandbox task); cbn [negb]; [| reflexivity].
        cbn [set_task_fields _effective_sandbox _sandbox_initialized _sandbox_inst
             _sandbox_proxy _envs world trace]. reflexivity.
      + cbn [set_task_fields _effective_sandbox _sandbox_initialized _sandbox_inst
             _sandbox_proxy _envs world trace]. rewrite Hk.
        destruct (Sandbox_new registry k) as [s | x]; [| reflexivity].
        destruct (is_active amb s); reflexivity.
    - destruct (allow_empty_sandbox task); cbn [negb]; reflexivity. }
  destruct (_sandbox_switched amb).
  - destruct (_current_sandbox amb) as [| first rest];
      [reflexivity | exact (Hrest (Some first))].
  - destruct (sandbox task) as [value | value]; [| exact (Hrest value)].
    destruct (multi_match value (valid_sandboxes task));
      [exact (Hrest (Some value)) | exact (Hrest (fallback_sandbox task value))].
Qed.

Lemma is_sandboxed_resolved (task : Task) (st : State) :
  _sandbox_initialized st = true ->
  is_sandboxed amb registry task st
  = (Ok (bool_decide (_effective_sandbox st = Some NO_STR)
         || negb (bool_decide (is_Some (_sandbox_inst st)))), st).
Proof.
  intros Hinit. unfold is_sandboxed, effective_sandbox.
  erewrite bind_Ok
    by (erewrite bind_Ok by (now apply initialize_sandbox_noop); reflexivity).
  case_bool_decide; [reflexivity |]. cbn [orb].
  now erewrite bind_Ok by (now apply sandbox_inst_noop).
Qed.

(** X18: the sandbox is resolved at most once per task object unless
    forced, also when the resolution raised: after any call of
    [_initialize_sandbox], an unforced call returns at once and changes
    nothing, and the three properties return the stored values. *)
Theorem resolution_happens_once (task : Task) (force : bool) (st : State) :
  let st1 := (_initialize_sandbox amb registry task force st).2 in
  _initialize_sandbox amb registry task false st1 = (Ok tt, st1)
  /\ effective_sandbox amb registry task st1 = (Ok (_effective_sandbox st1), st1)
  /\ sandbox_inst amb registry task st1 = (Ok (_sandbox_inst st1), st1)
  /\ sandbox_proxy amb registry task st1 = (Ok (_sandbox_proxy st1), st1).
Proof.
  intros st1.
  pose proof (initialize_sandbox_initialized amb registry task force st) as Hinit.
  fold st1 in Hinit.
  pose proof (initialize_sandbox_noop amb registry task st1 Hinit) as Hnoop.
  split; [exact Hnoop |].
  unfold effective_sandbox, sandbox_inst, sandbox_proxy.
  repeat split; now erewrite bind_Ok by exact Hnoop.
Qed.

(** X19: a task whose resolution arrives at no designation (none, or
    the empty designation) resolves to the empty designation when
    [allow_empty_sandbox] is set; when it is not, resolution raises, and
    since the task then already counts as resolved, [is_sandboxed]
    afterwards reports the direct case without raising again. *)
Theorem missing_designation (task : Task) (force : bool) (st : State)
    (e : option string) :
  unresolved force st ->
  designation task = Ok e ->
  is_empty_sandbox e = true ->
  (allow_empty_sandbox task = true ->
   _initialize_sandbox amb registry task force st
   = (Ok tt, set_task_fields true (Some NO_STR) None None st))
  /\ (allow_empty_sandbox task = false ->
      _initialize_sandbox amb registry task force st
      = (Raise (Exception ("task " +:+ task_repr task
                           +:+ " requires the sandbox parameter to be set")),
         set_task_fields true e None None st)
      /\ is_sandboxed amb registry task (set_task_fields true e None None st)
         = (Ok true, set_task_fields true e None None st)).
Proof.
  intros Hrun He Hempty.
  rewrite (initialize_sandbox_runs _ _ _ Hrun), He, Hempty.
  split; intros ->; [reflexivity |]. split; [reflexivity |].
  rewrite is_sandboxed_resolved by reflexivity.
  cbn [set_task_fields _sandbox_inst].
  rewrite (bool_decide_eq_false_2 (is_Some None)) by (intros [? ?]; discriminate).
  now rewrite orb_true_r.
Qed.

(** X20: a task whose designation names a registered backend that is not
    among the active sandboxes is sandboxed: resolution stores the
    instance that [Sandbox.new] built for the designation together with a
    proxy, [is_sandboxed] reports [False], and [env] is the environment of
    that instance. *)
Theorem resolves_to_sandbox (task : Task) (force : bool) (st : State)
    (k : string) (s : Sandbox) :
  unresolved force st ->
  designation task = Ok (Some k) ->
  Sandbox_new registry k = Ok s ->
  k ∉ _current_sandbox amb ->
  let st' := set_task_fields true (Some k) (Some s) (Some mkSandboxProxy) st in
  _initialize_sandbox amb registry task force st = (Ok tt, st')
  /\ key s = k
  /\ is_sandboxed amb registry task st' = (Ok false, st')
  /\ SandboxTask_env amb registry task st' = Sandbox_env s st'.
Proof.
  intros Hrun He Hnew Hout st'.
  pose proof (Sandbox_new_key _ _ _ Hnew) as Hkey.
  pose proof (Sandbox_new_not_empty _ _ _ Hnew) as Hne.
  assert (Hdirect : is_sandboxed amb registry task st' = (Ok false, st')).
  { rewrite is_sandboxed_resolved by reflexivity. subst st'.
    cbn [set_task_fields _sandbox_inst _effective_sandbox].
    rewrite bool_decide_eq_false_2
      by (intros [= ->]; now rewrite String.eqb_refl in Hne).
    now rewrite bool_decide_eq_true_2 by eauto. }
  split.
  - rewrite (initialize_sandbox_runs _ _ _ Hrun), He. cbn [is_empty_sandbox].
    rewrite Hne, Hnew. unfold is_active. rewrite Hkey.
    now rewrite bool_decide_eq_false_2 by exact Hout.
  - split; [exact Hkey |]. split; [exact Hdirect |].
    unfold SandboxTask_env. rewrite (bind_Ok _ _ _ _ _ Hdirect). cbv beta iota.
    now erewrite bind_Ok by (now apply sandbox_inst_noop).
Qed.

Lemma Sandbox_new_comma_free (k : string) (s : Sandbox) :
  Sandbox_new registry k = Ok s -> Str.contains "," k = false.
Proof.
  unfold Sandbox_new, Sandbox_new_for, check_key.
  destruct (Str.contains "," k); [discriminate | reflexivity].
Qed.

(** X21: inside a sandbox no task is ever nested: whatever the task
    designates and whether or not resolution succeeds, the task ends up
    with no sandbox instance and no proxy, and [is_sandboxed] reports the
    direct case. *)
Theorem inside_a_sandbox_nothing_is_nested (task : Task) (force : bool) (st : State) :
  _sandbox_switched amb = true ->
  unresolved force st ->
  let st' := (_initialize_sandbox amb registry task force st).2 in
  _sandbox_inst st' = None /\ _sandbox_proxy st' = None
  /\ is_sandboxed amb registry task st' = (Ok true, st').
Proof.
  intros Hin Hrun st'.
  assert (Hnone : _sandbox_inst st' = None /\ _sandbox_proxy st' = None).
  { subst st'. rewrite (initialize_sandbox_runs _ _ _ Hrun). unfold designation.
    rewrite Hin. destruct (_current_sandbox amb) as [| first rest] eqn:Hcur; [now split |].
    cbn [is_empty_sandbox].
    destruct (String.eqb first NO_STR); [now destruct (allow_empty_sandbox task) |].
    destruct (Sandbox_new registry first) as [s | x] eqn:Hnew; [| now split].
    unfold is_active. rewrite (Sandbox_new_key _ _ _ Hnew), Hcur.
    rewrite bool_decide_eq_true_2 by constructor. now split. }
  split; [apply Hnone |]. split; [apply Hnone |].
  rewrite is_sandboxed_resolved by apply initialize_sandbox_initialized.
  rewrite (proj1 Hnone).
  rewrite (bool_decide_eq_false_2 (is_Some None)) by (intros [? ?]; discriminate).
  now rewrite orb_true_r.
Qed.

(** The exception of a task without a designation. *)
Definition missing_sandbox (task : Task) : exn :=
  Exception ("task " +:+ task_repr task +:+ " requires the sandbox parameter to be set").

(** X22: inside a sandbox the designation of the task plays no part: two
    tasks that agree on [allow_empty_sandbox] are left in the same state
    by the resolver and succeed or fail alike, whatever their [sandbox]
    parameter, valid sandboxes, fallback, id and representation; when
    they fail they raise the same exception, or each the exception of a
    missing designation, which names the task. *)
Theorem inside_a_sandbox_the_parameter_is_ignored (task1 task2 : Task)
    (force : bool) (st : State) :
  _sandbox_switched amb = true ->
  allow_empty_sandbox task1 = allow_empty_sandbox task2 ->
  (_initialize_sandbox amb registry task1 force st).2
  = (_initialize_sandbox amb registry task2 force st).2
  /\ match (_initialize_sandbox amb registry task1 force st).1,
           (_initialize_sandbox amb registry task2 force st).1 with
     | Ok _, Ok _ => True
     | Raise e1, Raise e2 =>
         e1 = e2 \/ (e1 = missing_sandbox task1 /\ e2 = missing_sandbox task2)
     | _, _ => False
     end.
Proof.
  intros Hin Hallow.
  destruct (_sandbox_initialized st && negb force) eqn:Hguard.
  { unfold _initialize_sandbox, bind, gets. now rewrite Hguard. }
  assert (Hrun : unresolved force st).
  { apply andb_false_iff in Hguard as [Hi | Hf]; [now left | right].
    now destruct force. }
  rewrite !(initialize_sandbox_runs _ _ _ Hrun). unfold designation. rewrite Hin.
  destruct (_current_sandbox amb) as [| first rest]; [split; [reflexivity | now left] |].
  rewrite Hallow. destruct (is_empty_sandbox (Some first)).
  - destruct (allow_empty_sandbox task2); [now split |].
    split; [reflexivity |]. right. now split.
  - destruct (Sandbox_new registry first) as [s | x]; [| split; [reflexivity | now left]].
    now destruct (is_active amb s).
Qed.

(** X23: every run of the resolver, successful or not, leaves the task
    consistently resolved: it holds a proxy exactly when it holds a
    sandbox instance, and no instance under the empty designation. *)
Theorem resolution_leaves_the_task_consistent (task : Task) (force : bool) (st : State) :
  unresolved force st ->
  let st' := (_initialize_sandbox amb registry task force st).2 in
  _sandbox_initialized st' = true /\ resolved_consistently st'.
Proof.
  intros Hrun st'. split; [apply initialize_sandbox_initialized |].
  subst st'. rewrite (initialize_sandbox_runs _ _ _ Hrun).
  assert (Hnone : forall e, resolved_consistently (set_task_fields true e None None st)).
  { intros e. split; [split; reflexivity | reflexivity]. }
  destruct (designation task) as [e | x]; [| apply Hnone].
  destruct (is_empty_sandbox e) eqn:Hempty.
  { destruct (allow_empty_sandbox task); apply Hnone. }
  destruct e as [k |]; [| apply Hnone]. cbn [is_empty_sandbox] in Hempty.
  destruct (Sandbox_new registry k) as [s | x]; [| apply Hnone].
  destruct (is_active amb s); [apply Hnone |].
  split; [split; discriminate |]. cbn. intros [= ->]. now rewrite String.eqb_refl in Hempty.
Qed.

End Resolution.

(** ** The environment and the volumes of a sandbox
       ([Sandbox._get_env], [_get_volumes], [SandboxTask.is_root_task]) *)

(** [d[name] = value] on an ordered dict: an existing entry keeps its
    position, a new one goes to the end. *)
Fixpoint dict_set {V} (name : string) (value : V) (d : list (string * V)) :
    list (string * V) :=
  match d with
  | [] => [(name, value)]
  | (k, v) :: rest =>
      if String.eqb k name then (k, value) :: rest
      else (k, v) :: dict_set name value rest
  end.

(** [d.update(other)] *)
Definition dict_update {V} (d other : list (string * V)) : list (string * V) :=
  fold_left (fun d kv => dict_set kv.1 kv.2 d) other d.

(** [d.get(name)] *)
Fixpoint dict_get {V} (d : list (string * V)) (name : string) : option V :=
  match d with
  | [] => None
  | (k, v) :: rest => if String.eqb k name then Some v else dict_get rest name
  end.

(** [SandboxTask.is_root_task]; [is_root] is the answer of [Task]. *)
Definition is_root_task (amb : Ambient) (is_root : bool) : bool :=
  if negb (_sandbox_switched amb) then is_root
  else is_root && _sandbox_is_root_task amb.

(** What a sandbox reads from the task it was created for. *)
Record TaskView : Type := mkTaskView {
  live_task_id : string;
  task_is_root : bool;
  _worker_id : option string;
  _worker_first_task_id : option string;
  sandbox_env : Env -> Env;
  sandbox_volumes : list (string * option string) -> list (string * option string);
}.

Section Environment.
Context `{Collaborators}.

(** [Config.instance().items(section)]; a value is [None] when only the
    key is present. *)
Variable cfg_items : string -> list (string * option string).
(** [law.util.is_pattern], [fnmatch.fnmatch] *)
Variable is_pattern : string -> bool.
Variable fnmatch : string -> string -> bool.
(** [root_task().task_id] *)
Variable root_task_id : string.

Variable amb : Ambient.

(** [getattr(task, attr, None)] when it is truthy. *)
Definition set_if_truthy (name : string) (value : option string) (env : Env) : Env :=
  match value with
  | Some v => if Str.truthy v then dict_set name v env else env
  | None => env
  end.

(** Lines 236-246 of [_get_env]: the default sandboxing variables. *)
Definition default_variables (s : Sandbox) (task : option TaskView) : Env :=
  let env := [] in
  let env := dict_set "LAW_SANDBOX" (Str.replace_char "$" "\$" (key s)) env in
  let env := dict_set "LAW_SANDBOX_SWITCHED" "1" env in
  match task with
  | Some t =>
      let env := dict_set "LAW_SANDBOX_TASK_ID" (live_task_id t) env in
      let env := dict_set "LAW_SANDBOX_ROOT_TASK_ID" root_task_id env in
      let env := dict_set "LAW_SANDBOX_IS_ROOT_TASK"
                   (if is_root_task amb (task_is_root t) then "1" else "0") env in
      let env := set_if_truthy "LAW_SANDBOX_WORKER_ID" (_worker_id t) env in
      set_if_truthy "LAW_SANDBOX_WORKER_FIRST_TASK_ID" (_worker_first_task_id t) env
  | None => env
  end.

(** Lines 248-259: the variables of the config section; a pattern stands
    for the matching variables of the process, a name without a value for
    the value the process has. *)
Definition config_variables (s : Sandbox) (env : Env) : Env :=
  let section := get_config_section s (Some "env") in
  fold_left
    (fun env item =>
       let names :=
         if is_pattern item.1
         then List.filter (fun key => fnmatch key item.1) (map fst os_environ)
         else [item.1] in
       fold_left
         (fun env name =>
            dict_set name
              (match item.2 with Some v => v | None => getenv os_environ name end) env)
         names env)
    (cfg_items section) env.

(** Lines 261-265: the variables defined on task level. *)
Definition task_variables (task : option TaskView) (env : Env) : Env :=
  match task with
  | Some t =>
      match sandbox_env t env with
      | [] => env
      | task_env => dict_update env task_env
      end
  | None => env
  end.

(** [Sandbox._get_env] *)
Definition _get_env (s : Sandbox) (task : option TaskView) : Env :=
  task_variables task (config_variables s (default_variables s task)).

(** The assignments of the config loop of [_get_env], in order. *)
Definition config_assignments (s : Sandbox) : Env :=
  flat_map
    (fun item : string * option string =>
       map (fun name =>
              (name, match item.2 with Some v => v | None => getenv os_environ name end))
           (if is_pattern item.1
            then List.filter (fun key => fnmatch key item.1) (map fst os_environ)
            else [item.1]))
    (cfg_items (get_config_section s (Some "env"))).

Lemma dict_update_cons {V} (d other : list (string * V)) (k : string) (v : V) :
  dict_update d ((k, v) :: other) = dict_update (dict_set k v d) other.
Proof. reflexivity. Qed.

Lemma dict_get_set {V} (d : list (string * V)) (k k' : string) (v : V) :
  dict_get (dict_set k v d) k' = if String.eqb k k' then Some v else dict_get d k'.
Proof.
  induction d as [| [k0 v0] d IH]; cbn [dict_set dict_get]; [reflexivity |].
  destruct (String.eqb_spec k0 k) as [-> | Hne]; cbn [dict_get].
  - now destruct (String.eqb k k').
  - rewrite IH. destruct (String.eqb_spec k0 k') as [-> |]; [| reflexivity].
    destruct (String.eqb_spec k k') as [-> |]; [now destruct Hne | reflexivity].
Qed.

Lemma dict_get_update_other {V} (other d : list (string * V)) (name : string) :
  name ∉ map fst other -> dict_get (dict_update d other) name = dict_get d name.
Proof.
  revert d. induction other as [| [k v] other IH]; intros d Hout; [reflexivity |].
  cbn [map fst] in Hout. apply not_elem_of_cons in Hout as [Hne Hout].
  rewrite dict_update_cons, (IH _ Hout), dict_get_set.
  destruct (String.eqb_spec k name) as [-> |]; [now destruct Hne | reflexivity].
Qed.


Lemma getenv_dict_get (d : Env) (name : string) :
  getenv d name = default "" (dict_get d name).
Proof.
  induction d as [| [k v] d IH]; cbn [getenv dict_get]; [reflexivity |].
  now destruct (String.eqb k name).
Qed.

Lemma config_variables_update (s : Sandbox) (env : Env) :
  config_variables s env = dict_update env (config_assignments s).
Proof.
  unfold config_variables, config_assignments, dict_update.
  generalize (cfg_items (get_config_section s (Some "env"))). intros items.
  revert env. induction items as [| item items IH]; intros env; [reflexivity |].
  cbn [fold_left flat_map]. rewrite fold_left_app, IH. f_equal.
  generalize (if is_pattern item.1
              then List.filter (fun key => fnmatch key item.1) (map fst os_environ)
              else [item.1]).
  intros names. revert env. induction names as [| n names IHn]; intros env; [reflexivity |].
  cbn [fold_left map]. apply IHn.
Qed.

Lemma task_variables_update (task : option TaskView) (env : Env) :
  task_variables task env
  = dict_update env (match task with Some t => sandbox_env t env | None => [] end).
Proof.
  destruct task as [t |]; [| reflexivity]. unfold task_variables.
  now destruct (sandbox_env t env).
Qed.


(** The variables that the module body reads inside a sandbox. *)
Definition ambient_variables : list string :=
  ["LAW_SANDBOX"; "LAW_SANDBOX_SWITCHED"; "LAW_SANDBOX_TASK_ID";
   "LAW_SANDBOX_WORKER_ID"; "LAW_SANDBOX_WORKER_FIRST_TASK_ID"].

(** Neither the config file nor the task defines a variable that the
    module body reads. *)
Definition defaults_untouched (s : Sandbox) (task : option TaskView) : Prop :=
  forall name, name ∈ ambient_variables ->
    (name ∉ map fst (config_assignments s))
    /\ (name ∉ map fst (match task with
                        | Some t =>
                            sandbox_env t (config_variables s (default_variables s task))
                        | None => []
                        end)).

Lemma getenv_untouched (s : Sandbox) (task : option TaskView) (name : string) :
  defaults_untouched s task -> name ∈ ambient_variables ->
  getenv (_get_env s task) name = default "" (dict_get (default_variables s task) name).
Proof.
  intros Hun Hname. destruct (Hun name Hname) as [Hcfg Htask].
  rewrite getenv_dict_get. f_equal. unfold _get_env.
  rewrite task_variables_update, (dict_get_update_other _ _ _ Htask).
  rewrite config_variables_update. now apply dict_get_update_other.
Qed.

Lemma replace_char_absent (c : ascii) (new s : string) :
  Str.contains (String c "") s = false -> Str.replace_char c new s = s.
Proof.
  induction s as [| a s IH]; [reflexivity |]. cbn [Str.contains Str.replace_char].
  rewrite prefix_cons. intros Hno. apply orb_false_iff in Hno as [Hhead Htail].
  destruct (Ascii.eqb_spec a c) as [-> | Hne].
  - destruct (ascii_dec c c); [| contradiction].
    now destruct s.
  - now rewrite (IH Htail).
Qed.

Lemma split_char_whole (s : string) :
  Str.contains "," s = false -> Str.split_char "," s = [s].
Proof.
  induction s as [| a s IH]; [reflexivity |]. cbn [Str.contains Str.split_char].
  rewrite prefix_cons. intros Hno. apply orb_false_iff in Hno as [Hhead Htail].
  destruct (Ascii.eqb_spec a ",") as [-> | Hne].
  - destruct (ascii_dec "," ","); [| contradiction]. now destruct s.
  - now rewrite (IH Htail).
Qed.

Lemma set_if_truthy_get (name name' : string) (value : option string) (env : Env) :
  dict_get (set_if_truthy name value env) name'
  = match value with
    | Some v => if Str.truthy v && String.eqb name name' then Some v else dict_get env name'
    | None => dict_get env name'
    end.
Proof.
  unfold set_if_truthy. destruct value as [v |]; [| reflexivity].
  destruct (Str.truthy v); [apply dict_get_set | reflexivity].
Qed.

(** X25: the module body, run on the variables that [_get_env] sets for
    a sandbox that [Sandbox.new] built and for a task with an id and with
    worker ids, loads; it then finds itself switched, with the key of the
    sandbox as its only current sandbox, so that the sandbox is active.
    The key holds no dollar sign, and neither the config file nor the task
    redefines the variables read. *)
Theorem sandbox_environment_loads_inside (registry : list SandboxClass)
    (k : string) (s : Sandbox) (t : TaskView) (w f : string) :
  Sandbox_new registry k = Ok s ->
  Str.contains "$" k = false ->
  defaults_untouched s (Some t) ->
  live_task_id t <> "" ->
  _worker_id t = Some w -> w <> "" ->
  _worker_first_task_id t = Some f -> f <> "" ->
  exists inner,
    load_ambient (_get_env s (Some t)) = Ok inner
    /\ _sandbox_switched inner = true
    /\ _current_sandbox inner = [k]
    /\ _sandbox_task_id inner = live_task_id t
    /\ _sandbox_worker_id inner = w
    /\ _sandbox_worker_first_task_id inner = f
    /\ is_active inner s = true.
Proof.
  intros Hnew Hdollar Hun Hid Hw Hwne Hf Hfne.
  pose proof (Sandbox_new_key _ _ _ Hnew) as Hkey.
  pose proof (Sandbox_new_comma_free _ _ _ Hnew) as Hcomma.
  assert (Hget : forall name, name ∈ ambient_variables ->
                   getenv (_get_env s (Some t)) name
                   = default "" (dict_get (default_variables s (Some t)) name)).
  { intros name. now apply getenv_untouched. }
  assert (Hdef : forall name,
             dict_get (default_variables s (Some t)) name
             = if String.eqb "LAW_SANDBOX_WORKER_FIRST_TASK_ID" name then Some f
               else if String.eqb "LAW_SANDBOX_WORKER_ID" name then Some w
               else if String.eqb "LAW_SANDBOX_IS_ROOT_TASK" name
                    then Some (if is_root_task amb (task_is_root t) then "1" else "0")
               else if String.eqb "LAW_SANDBOX_ROOT_TASK_ID" name then Some root_task_id
               else if String.eqb "LAW_SANDBOX_TASK_ID" name then Some (live_task_id t)
               else if String.eqb "LAW_SANDBOX_SWITCHED" name then Some "1"
               else if String.eqb "LAW_SANDBOX" name then Some k
               else None).
  { intros name. unfold default_variables. rewrite Hw, Hf, !set_if_truthy_get.
    rewrite (proj2 (truthy_nonempty w) Hwne), (proj2 (truthy_nonempty f) Hfne).
    cbn [andb]. rewrite !dict_get_set, Hkey.
    now rewrite (replace_char_absent "$" "\$" k Hdollar). }
  assert (H1 : getenv (_get_env s (Some t)) "LAW_SANDBOX" = k).
  { rewrite Hget, Hdef by (apply list_elem_of_In; cbn; tauto). reflexivity. }
  assert (H2 : getenv (_get_env s (Some t)) "LAW_SANDBOX_SWITCHED" = "1").
  { rewrite Hget, Hdef by (apply list_elem_of_In; cbn; tauto). reflexivity. }
  assert (H3 : getenv (_get_env s (Some t)) "LAW_SANDBOX_TASK_ID" = live_task_id t).
  { rewrite Hget, Hdef by (apply list_elem_of_In; cbn; tauto). reflexivity. }
  assert (H4 : getenv (_get_env s (Some t)) "LAW_SANDBOX_WORKER_ID" = w).
  { rewrite Hget, Hdef by (apply list_elem_of_In; cbn; tauto). reflexivity. }
  assert (H5 : getenv (_get_env s (Some t)) "LAW_SANDBOX_WORKER_FIRST_TASK_ID" = f).
  { rewrite Hget, Hdef by (apply list_elem_of_In; cbn; tauto). reflexivity. }
  assert (Hk : k <> "").
  { intros ->. unfold Sandbox_new, Sandbox_new_for in Hnew. vm_compute in Hnew.
    discriminate Hnew. }
  unfold load_ambient.
  cbn [_sandbox_switched _current_sandbox _sandbox_task_id _sandbox_worker_id
       _sandbox_worker_first_task_id].
  rewrite H1, H2, H3, H4, H5, (split_char_whole _ Hcomma).
  change (String.eqb "1" "1") with true. cbv beta iota.
  rewrite (proj2 (truthy_nonempty k) Hk), (proj2 (truthy_nonempty _) Hid),
    (proj2 (truthy_nonempty w) Hwne), (proj2 (truthy_nonempty f) Hfne).
  cbn [negb]. eexists. split; [reflexivity |].
  cbn [_sandbox_switched _current_sandbox _sandbox_task_id _sandbox_worker_id
       _sandbox_worker_first_task_id].
  repeat split. unfold is_active. cbn [_current_sandbox]. rewrite Hkey.
  apply bool_decide_eq_true_2. constructor.
Qed.

(** X26: the module body does not load from the variables that
    [_get_env] sets when the sandbox was created without a task, or for a
    task without a worker id, unless the config file or the task supply
    the missing variables. *)
Theorem sandbox_environment_needs_worker (s : Sandbox) (task : option TaskView) :
  defaults_untouched s task ->
  match task with
  | Some t => _worker_id t = None \/ _worker_id t = Some ""
  | None => True
  end ->
  is_ok (load_ambient (_get_env s task)) = false.
Proof.
  intros Hun Hworker.
  assert (H2 : getenv (_get_env s task) "LAW_SANDBOX_SWITCHED" = "1").
  { rewrite getenv_untouched by (try assumption; apply list_elem_of_In; cbn; tauto).
    unfold default_variables, set_if_truthy. destruct task as [t |]; [| reflexivity].
    destruct (_worker_id t) as [w |], (_worker_first_task_id t) as [f |];
      repeat match goal with |- context [Str.truthy ?x] => destruct (Str.truthy x) end;
      now rewrite !dict_get_set. }
  assert (H4 : match task with
               | Some _ => getenv (_get_env s task) "LAW_SANDBOX_WORKER_ID" = ""
               | None => getenv (_get_env s task) "LAW_SANDBOX_TASK_ID" = ""
               end).
  { destruct task as [t |];
      rewrite getenv_untouched by (try assumption; apply list_elem_of_In; cbn; tauto);
      unfold default_variables, set_if_truthy; [| reflexivity].
    destruct Hworker as [-> | ->]; cbn [Str.truthy];
      destruct (_worker_first_task_id t) as [f |];
      repeat match goal with |- context [Str.truthy ?x] => destruct (Str.truthy x) end;
      now rewrite !dict_get_set. }
  unfold load_ambient.
  cbn [_sandbox_switched _current_sandbox _sandbox_task_id _sandbox_worker_id
       _sandbox_worker_first_task_id].
  rewrite H2. change (String.eqb "1" "1") with true. cbv beta iota.
  destruct (Str.split_char "," _) as [| first rest]; [reflexivity |].
  destruct (negb (Str.truthy first)); [reflexivity |].
  destruct task as [t |]; rewrite H4; cbn [Str.truthy negb]; [| reflexivity].
  now destruct (negb (Str.truthy _)).
Qed.

End Environment.

Section Volumes.
Context `{Collaborators}.

(** [Config.instance().items(section, expand_vars=False, expand_user=False)] *)
Variable cfg_items : string -> list (string * option string).
(** [os.path.expandvars(os.path.expanduser(hdir))] *)
Variable expand_path : string -> string.



End Volumes.

(** ** Placeholders in volumes ([Sandbox._expand_volume]) *)

(** [s.replace(old, new)] for a non-empty [old]: the occurrences of [old]
    are found from left to right and do not overlap; [skip] characters of
    an occurrence just replaced are still to be passed over. *)
Fixpoint replace_from (old new : string) (skip : nat) (s : string) : string :=
  match s with
  | EmptyString => EmptyString
  | String c s' =>
      match skip with
      | S n => replace_from old new n s'
      | O =>
          if String.prefix old s
          then new +:+ replace_from old new (String.length old - 1) s'
          else String c (replace_from old new 0 s')
      end
  end.

Definition str_replace (old new s : string) : string := replace_from old new 0 s.

(** The inner [replace(vol, name, repl)] of [_expand_volume]. *)
Definition replace_forward (vol name repl : string) : string :=
  let var := "{{LAW_FORWARD_" +:+ name +:+ "}}" in
  str_replace var repl vol.

(** [Sandbox._expand_volume(vol, bin_dir, python_dir)] *)
Definition _expand_volume (vol : string) (bin_dir python_dir : option string) : string :=
  let vol :=
    match bin_dir with
    | Some d => if Str.truthy d then replace_forward vol "BIN" d else vol
    | None => vol
    end in
  match python_dir with
  | Some d => if Str.truthy d then replace_forward vol "PY" d else vol
  | None => vol
  end.

Lemma str_replace_absent (old new s : string) :
  Str.contains old s = false -> str_replace old new s = s.
Proof.
  unfold str_replace. induction s as [| c s IH]; [reflexivity |].
  cbn [Str.contains replace_from]. intros Hno.
  apply orb_false_iff in Hno as [Hhead Htail]. now rewrite Hhead, (IH Htail).
Qed.

(** X28: a volume that holds neither placeholder passes through
    [_expand_volume] unchanged, whatever directories are given. *)
Theorem expand_volume_without_placeholders (vol : string)
    (bin_dir python_dir : option string) :
  Str.contains "{{LAW_FORWARD_BIN}}" vol = false ->
  Str.contains "{{LAW_FORWARD_PY}}" vol = false ->
  _expand_volume vol bin_dir python_dir = vol.
Proof.
  intros Hbin Hpy. unfold _expand_volume.
  assert (Hfirst : match bin_dir with
                   | Some d => if Str.truthy d then replace_forward vol "BIN" d else vol
                   | None => vol
                   end = vol).
  { destruct bin_dir as [d |]; [| reflexivity].
    destruct (Str.truthy d); [| reflexivity].
    unfold replace_forward. now apply str_replace_absent. }
  rewrite Hfirst. destruct python_dir as [d |]; [| reflexivity].
  destruct (Str.truthy d); [| reflexivity].
  unfold replace_forward. now apply str_replace_absent.
Qed.

(** * The further properties in the concrete setting *)

Section FurtherWitnesses.
#[local] Existing Instance Demo.collaborators.

Lemma split_key_parts_witness :
  join_key "docker" "image" = "docker::image"
  /\ Str.contains delimiter "docker" = false
  /\ Str.strip "docker" <> "" /\ Str.strip "image" <> "".
Proof.
  apply (split_key_parts "docker::image" "docker" "image"). reflexivity.
Defined.

Lemma remove_type_keeps_name_witness :
  remove_type (join_key "docker" "image") = Ok "image".
Proof.
  apply (proj1 (remove_type_keeps_name "docker" "image")); reflexivity.
Defined.


Lemma find_class_prefers_listed_classes_witness :
  find_class "docker" ([Demo.bash] ++ Demo.docker :: []) = Some Demo.docker.
Proof.
  apply (find_class_prefers_listed_classes "docker" [Demo.bash] [] Demo.docker).
  - constructor; [discriminate | constructor].
  - reflexivity.
Defined.

Lemma Sandbox_new_instance_witness :
  split_key "docker::image"
  = Ok (sandbox_type Demo.docker_image, name Demo.docker_image)
  /\ key Demo.docker_image = "docker::image"
  /\ Str.contains "," "docker::image" = false
  /\ stagein_info Demo.docker_image = None /\ stageout_info Demo.docker_image = None.
Proof.
  apply (Sandbox_new_instance Demo.registry "docker::image" Demo.docker_image).
  reflexivity.
Defined.

Lemma load_ambient_outcome_witness :
  is_ok (load_ambient Demo.inside_environ) = true.
Proof.
  apply (proj2 (load_ambient_outcome Demo.inside_environ) eq_refl).
  repeat split; try discriminate.
  exists "docker::image", []. split; [reflexivity | discriminate].
Defined.

Lemma ambient_keys_pass_check_key_witness :
  check_key "docker::image" false = Ok true.
Proof.
  apply (proj2 (ambient_keys_pass_check_key Demo.inside_environ Demo.inside eq_refl)).
  now left.
Defined.

(** The state after the environment of [docker::image] was resolved, and
    a sandbox of the other backend. *)
Definition cached : State := (Sandbox_env Demo.docker_image (Demo.fresh 0 [])).2.

Definition bash_login : Sandbox := Sandbox_object Demo.bash "bash" "login".

Lemma cached_environments_persist_witness :
  _envs (accesses [bash_login; Demo.docker_image] cached) !! ("docker", "image")
  = Some [("IMAGE", "image")].
Proof.
  apply (proj1 (cached_environments_persist
                  [bash_login; Demo.docker_image] cached ("docker", "image"))).
  reflexivity.
Defined.

Lemma Sandbox_run_reuses_environment_witness :
  exists e,
    _envs (Sandbox_run Demo.docker_image "make" (Demo.fresh 0 [])).2
      !! cache_key Demo.docker_image = Some e
    /\ Sandbox_run Demo.docker_image "make test"
         (Sandbox_run Demo.docker_image "make" (Demo.fresh 0 [])).2
       = ((interruptable_popen "make test" e
             (world (Sandbox_run Demo.docker_image "make" (Demo.fresh 0 [])).2)).1,
          log (EvPopen "make test"
                 (interruptable_popen "make test" e
                    (world (Sandbox_run Demo.docker_image "make" (Demo.fresh 0 [])).2)).1)
              (set_world
                 (interruptable_popen "make test" e
                    (world (Sandbox_run Demo.docker_image "make" (Demo.fresh 0 [])).2)).2
                 (Sandbox_run Demo.docker_image "make" (Demo.fresh 0 [])).2)).
Proof.
  apply (Sandbox_run_reuses_environment Demo.docker_image "make" "make test"
           (Demo.fresh 0 []) _ 0).
  reflexivity.
Defined.

Lemma run_banners_are_paired_witness :
  Forall (fun ev => ~ is_banner ev) (trace Demo.successful_run.2)
  \/ exists s pre mid post,
       trace Demo.successful_run.2
       = (pre ++ entering (Demo.task Demo.outputs) s
              :: mid ++ leaving (Demo.task Demo.outputs) s :: post)%list
       /\ Forall (fun ev => ~ is_banner ev) pre
       /\ Forall (fun ev => ~ is_banner ev) mid
       /\ Forall (fun ev => ~ is_banner ev) post.
Proof.
  apply (run_banners_are_paired Demo.outside Demo.registry (Demo.task Demo.outputs)
           (Demo.fresh 0 []) Demo.successful_run.2 Demo.successful_run.1).
  - vm_compute. reflexivity.
  - reflexivity.
Defined.

Lemma run_order_witness :
  Forall (before_command (Demo.task Demo.outputs)) (take 7 (trace Demo.successful_run.2))
  /\ Forall (after_command (Demo.task Demo.outputs)) (drop 8 (trace Demo.successful_run.2)).
Proof.
  apply (run_order Demo.outside Demo.registry (Demo.task Demo.outputs)
           (Demo.fresh 0 []) Demo.successful_run.2 Demo.successful_run.1
           (take 7 (trace Demo.successful_run.2)) (drop 8 (trace Demo.successful_run.2))
           "docker run image" (Ok 0%Z)).
  - vm_compute. reflexivity.
  - vm_compute. reflexivity.
Defined.

Lemma run_success_needs_exit_zero_witness :
  exists pre post command,
    trace Demo.successful_run.2 = (pre ++ EvPopen command (Ok 0%Z) :: post)%list.
Proof.
  apply (run_success_needs_exit_zero Demo.outside Demo.registry (Demo.task Demo.outputs)
           (Demo.fresh 0 []) Demo.successful_run.2).
  - vm_compute. reflexivity.
  - reflexivity.
Defined.

(** The task with the default [sandbox_stagein] and [sandbox_stageout]. *)
Definition plain_task : Task := {|
  task_id := "Histogram_2";
  task_repr := "Histogram(sandbox=bash::login)";
  sandbox := ParamValue "bash::login";
  allow_empty_sandbox := false;
  valid_sandboxes := ["*"];
  exclude_params_sandbox := ["sandbox"; "log_file"];
  fallback_sandbox _ := None;
  sandbox_stagein := None;
  sandbox_stageout := None;
  input _ := Demo.inputs;
  output _ := Demo.outputs;
  sandbox_before_run := Some (fun w => (Raise (Exception "not today"), w));
  sandbox_after_run := None;
|}.

Definition plain_run : result unit * State :=
  SandboxProxy_run Demo.outside Demo.registry plain_task (Demo.fresh 0 []).


(** The [before_run] hook of [plain_task] raises. *)
Lemma before_run_hook_comes_first_witness :
  plain_run.1 = Raise (Exception "not today")
  /\ plain_run.2
     = set_world (world (Demo.fresh 0 [])) (log EvBeforeRun (Demo.fresh 0 [])).
Proof.
  apply (proj2 (before_run_hook_comes_first Demo.outside Demo.registry plain_task
                  (Demo.fresh 0 []) plain_run.2 plain_run.1
                  (fun w => (Raise (Exception "not today"), w)) eq_refl
                  (surjective_pairing plain_run))
           (Exception "not today") eq_refl).
Defined.

Definition stageout_info_of_outputs : StageInfo :=
  mkStageInfo Demo.outputs "/tmp/law/stage"
    (create_staged_target_struct "/tmp/law/stage" Demo.outputs).

Lemma stageout_handles_every_leaf_witness :
  exists st',
    stageout stageout_info_of_outputs Demo.partial_ran = (Ok tt, st')
    /\ trace st'
       = (trace Demo.partial_ran
          ++ stage_out_record (create_staged_target "/tmp/law/stage")
               (leaves Demo.outputs) (world Demo.partial_ran))%list
    /\ world st'
       = stage_out_world (create_staged_target "/tmp/law/stage")
           (leaves Demo.outputs) (world Demo.partial_ran).
Proof.
  apply (proj1 (stageout_handles_every_leaf stageout_info_of_outputs Demo.partial_ran
                  eq_refl)).
  vm_compute. tauto.
Defined.




(** A task whose class hard-codes no sandbox at all. *)
Definition unset_task : Task := {|
  task_id := "Plot_1";
  task_repr := "Plot()";
  sandbox := HardCoded None;
  allow_empty_sandbox := false;
  valid_sandboxes := ["*"];
  exclude_params_sandbox := ["sandbox"; "log_file"];
  fallback_sandbox _ := None;
  sandbox_stagein := None;
  sandbox_stageout := None;
  input _ := Demo.inputs;
  output _ := Demo.outputs;
  sandbox_before_run := None;
  sandbox_after_run := None;
|}.

Lemma missing_designation_witness :
  _initialize_sandbox Demo.outside Demo.registry unset_task false (Demo.fresh 0 [])
  = (Raise (Exception "task Plot() requires the sandbox parameter to be set"),
     set_task_fields true None None None (Demo.fresh 0 []))
  /\ is_sandboxed Demo.outside Demo.registry unset_task
       (set_task_fields true None None None (Demo.fresh 0 []))
     = (Ok true, set_task_fields true None None None (Demo.fresh 0 [])).
Proof.
  apply (proj2 (missing_designation Demo.outside Demo.registry unset_task false
                  (Demo.fresh 0 []) None (or_introl eq_refl) eq_refl eq_refl)).
  reflexivity.
Defined.

Lemma resolves_to_sandbox_witness :
  _initialize_sandbox Demo.outside Demo.registry (Demo.task Demo.outputs) false
    (Demo.fresh 0 [])
  = (Ok tt, set_task_fields true (Some "docker::image") (Some Demo.docker_image)
              (Some mkSandboxProxy) (Demo.fresh 0 []))
  /\ key Demo.docker_image = "docker::image"
  /\ is_sandboxed Demo.outside Demo.registry (Demo.task Demo.outputs)
       (set_task_fields true (Some "docker::image") (Some Demo.docker_image)
          (Some mkSandboxProxy) (Demo.fresh 0 []))
     = (Ok false,
        set_task_fields true (Some "docker::image") (Some Demo.docker_image)
          (Some mkSandboxProxy) (Demo.fresh 0 []))
  /\ SandboxTask_env Demo.outside Demo.registry (Demo.task Demo.outputs)
       (set_task_fields true (Some "docker::image") (Some Demo.docker_image)
          (Some mkSandboxProxy) (Demo.fresh 0 []))
     = Sandbox_env Demo.docker_image
         (set_task_fields true (Some "docker::image") (Some Demo.docker_image)
            (Some mkSandboxProxy) (Demo.fresh 0 [])).
Proof.
  apply (resolves_to_sandbox Demo.outside Demo.registry (Demo.task Demo.outputs) false
           (Demo.fresh 0 []) "docker::image" Demo.docker_image).
  - left. reflexivity.
  - reflexivity.
  - reflexivity.
  - apply not_elem_of_cons. split; [discriminate | apply not_elem_of_nil].
Defined.

Lemma inside_a_sandbox_nothing_is_nested_witness :
  _sandbox_inst (_initialize_sandbox Demo.inside Demo.registry plain_task false
                   (Demo.fresh 0 [])).2 = None
  /\ _sandbox_proxy (_initialize_sandbox Demo.inside Demo.registry plain_task false
                       (Demo.fresh 0 [])).2 = None
  /\ is_sandboxed Demo.inside Demo.registry plain_task
       (_initialize_sandbox Demo.inside Demo.registry plain_task false (Demo.fresh 0 [])).2
     = (Ok true,
        (_initialize_sandbox Demo.inside Demo.registry plain_task false (Demo.fresh 0 [])).2).
Proof.
  apply (inside_a_sandbox_nothing_is_nested Demo.inside Demo.registry plain_task false
           (Demo.fresh 0 [])).
  - reflexivity.
  - left. reflexivity.
Defined.

(** Inside [docker::image], the task that asks for [bash::login] resolves
    like the task that asks for [docker::image]. *)
Lemma inside_a_sandbox_the_parameter_is_ignored_witness :
  (_initialize_sandbox Demo.inside Demo.registry (Demo.task Demo.outputs) false
     (Demo.fresh 0 [])).2
  = (_initialize_sandbox Demo.inside Demo.registry plain_task false (Demo.fresh 0 [])).2
  /\ match (_initialize_sandbox Demo.inside Demo.registry (Demo.task Demo.outputs) false
              (Demo.fresh 0 [])).1,
           (_initialize_sandbox Demo.inside Demo.registry plain_task false
              (Demo.fresh 0 [])).1 with
     | Ok _, Ok _ => True
     | Raise e1, Raise e2 =>
         e1 = e2 \/ (e1 = missing_sandbox (Demo.task Demo.outputs)
                     /\ e2 = missing_sandbox plain_task)
     | _, _ => False
     end.
Proof.
  apply (inside_a_sandbox_the_parameter_is_ignored Demo.inside Demo.registry
           (Demo.task Demo.outputs) plain_task false (Demo.fresh 0 []));
    reflexivity.
Defined.

Lemma resolution_leaves_the_task_consistent_witness :
  _sandbox_initialized Demo.resolved = true /\ resolved_consistently Demo.resolved.
Proof.
  apply (resolution_leaves_the_task_consistent Demo.outside Demo.registry
           (Demo.task Demo.outputs) false (Demo.fresh 0 [])).
  left. reflexivity.
Defined.

(** An empty config file, and what the sandbox sees of a task of a
    worker. *)
Definition no_items (section : string) : list (string * option string) := [].

Definition worker_task : TaskView := {|
  live_task_id := "Histogram_1";
  task_is_root := true;
  _worker_id := Some "w1";
  _worker_first_task_id := Some "Histogram_1";
  sandbox_env _ := [];
  sandbox_volumes _ := [];
|}.



Lemma sandbox_environment_loads_inside_witness :
  exists inner,
    load_ambient (_get_env no_items (fun _ => false) (fun _ _ => false) "Histogram_1"
                    Demo.outside Demo.docker_image (Some worker_task))
    = Ok inner
    /\ _sandbox_switched inner = true
    /\ _current_sandbox inner = ["docker::image"]
    /\ _sandbox_task_id inner = "Histogram_1"
    /\ _sandbox_worker_id inner = "w1"
    /\ _sandbox_worker_first_task_id inner = "Histogram_1"
    /\ is_active inner Demo.docker_image = true.
Proof.
  apply (sandbox_environment_loads_inside no_items (fun _ => false) (fun _ _ => false)
           "Histogram_1" Demo.outside Demo.registry "docker::image" Demo.docker_image
           worker_task "w1" "Histogram_1").
  - reflexivity.
  - reflexivity.
  - intros name _. split; apply not_elem_of_nil.
  - discriminate.
  - reflexivity.
  - discriminate.
  - reflexivity.
  - discriminate.
Defined.

(** Without a task the variables of a worker are not set. *)
Lemma sandbox_environment_needs_worker_witness :
  is_ok (load_ambient (_get_env no_items (fun _ => false) (fun _ _ => false) "Histogram_1"
                         Demo.outside Demo.docker_image None)) = false.
Proof.
  apply (sandbox_environment_needs_worker no_items (fun _ => false) (fun _ _ => false)
           "Histogram_1" Demo.outside Demo.docker_image None).
  - intros name _. split; apply not_elem_of_nil.
  - exact I.
Defined.


Lemma expand_volume_without_placeholders_witness :
  _expand_volume "/cvmfs:/cvmfs" (Some "/usr/bin") (Some "/usr/lib/python") = "/cvmfs:/cvmfs".
Proof.
  apply (expand_volume_without_placeholders "/cvmfs:/cvmfs"); reflexivity.
Defined.

End FurtherWitnesses.
